(** * midi_image_trigger: grid layout, active notes and the signal pipeline

    A shallow embedding of the two source files of the repository,
    [midi2img.py] and [corruptize.py], followed by the properties that the
    specification states about them.

    Conventions of the embedding.

    - Python integers are [Z].  Python exceptions are values of [exn]; a
      function that may raise returns a [result].
    - In [compute_grid_dimensions] every float is a transient value between
      two integers: [math.sqrt] of an [int], the true division [/] of two
      [int]s, and the consumers [math.ceil], [int] and [>=].  These are
      embedded by their exact counterparts on [Z] and [Q] ([Z.sqrt_up],
      [Qdiv], [Qceiling], truncation, [Qle_bool]); the binary64 rounding of
      the interpreter agrees with them as long as the integers involved stay
      far below 2^52, which holds for window sizes and note counts.
    - In [process_image_array] the data itself is a float32 signal.  It is
      embedded bit for bit with the IEEE 754 operations of [SpecFloat] at
      precision 24 and maximal exponent 128; comparisons are made on the
      exact rational value of the operands.
    - The dictionaries [images] and [active] are [gmap]s keyed by the note
      number.  The only traversal of [active] goes through [sorted], so the
      insertion order of the Python dictionary is never observed.
    - What the libraries do is taken as a parameter: the call of the
      [Pedalboard], the file system and the image decoder of [load_images],
      [int] on a [str], the list of MIDI ports.  What is printed is left
      out, and [sys.exit] is a result of its own.
    - [scale_surface_to_fit_exact] multiplies a size by a rounded quotient
      and truncates the product, where the rounding of binary64 can move the
      result by one pixel; it is not embedded, and the draw loop takes the
      size of the scaled image as an argument. *)

From Stdlib Require Import ZArith QArith Qround Qpower Qabs Lia List Bool String.
From Stdlib Require Import Floats.SpecFloat.
From stdpp Require Import base option list strings gmap sorting.

Local Open Scope Z_scope.

(** ** Python exceptions and the error monad *)

Module Py.

(** The exceptions that the modelled code can raise.  The last two are not
    Python exceptions: [UndefinedCast] stands for a conversion to [uint8]
    whose result C leaves undefined, and [FuelExhausted] for a loop of the
    embedding that was cut before its exit. *)
Inductive exn : Type :=
| ZeroDivisionError
| ValueError
| TypeError
| UndefinedCast
| FuelExhausted.

Inductive result (A : Type) : Type :=
| Ok (a : A)
| Raise (e : exn).

Arguments Ok {A} a.
Arguments Raise {A} e.

Definition bind {A B : Type} (r : result A) (k : A -> result B) : result B :=
  match r with
  | Ok a => k a
  | Raise e => Raise e
  end.

(** [a / b] on two [int]s. *)
Definition truediv (a b : Z) : result Q :=
  if b =? 0 then Raise ZeroDivisionError
  else Ok (Qdiv (inject_Z a) (inject_Z b)).

(** [math.ceil(x)]. *)
Definition ceil (x : Q) : Z := Qceiling x.

(** [int(x)]: truncation towards zero. *)
Definition int (x : Q) : Z := Z.quot (Qnum x) (Zpos (Qden x)).

(** [math.ceil(math.sqrt(n))] for [n >= 1]: the least [c] with [n <= c * c]. *)
Definition ceil_sqrt (n : Z) : Z := Z.sqrt_up n.

(** [x >= m] for a float [x] and an [int] [m]. *)
Definition ge_int (x : Q) (m : Z) : bool := Qle_bool (inject_Z m) x.

End Py.

Notation "'let?' x ':=' r 'in' k" := (Py.bind r (fun x => k))
  (at level 10, x name, r at level 100, k at level 200,
   format "'[v' 'let?'  x  ':='  r  'in' '/' k ']'").

(** ** midi2img.py *)

Module Midi2img.
Import Py.

(** The test of the [while] loop body (lines 96-98): both candidate cell
    sizes reach [min_cell_size]. *)
Definition candidates_fit (window_w window_h padding min_cell_size cols rows : Z)
  : result bool :=
  let? cell_w_candidate := truediv (window_w - (cols + 1) * padding) cols in
  let? cell_h_candidate := truediv (window_h - (rows + 1) * padding) rows in
  Ok (ge_int cell_w_candidate min_cell_size && ge_int cell_h_candidate min_cell_size).

(** One evaluation of the loop of lines 95-102 on the pair [(cols, rows)]:
    [inl] is the state on which the loop is left, [inr] the state of the next
    iteration. *)
Definition reduce_step (n_items window_w window_h padding min_cell_size : Z)
    (st : Z * Z) : result ((Z * Z) + (Z * Z)) :=
  let '(cols, rows) := st in
  if cols >? 1 then
    let? fit := candidates_fit window_w window_h padding min_cell_size cols rows in
    if (fit : bool) then Ok (inl (cols, rows))
    else
      let cols := cols - 1 in
      let? q := truediv n_items cols in
      Ok (inr (cols, ceil q))
  else Ok (inl (cols, rows)).

(** The [while cols > 1] loop, iterated at most [fuel] times after the
    first test. *)
Fixpoint reduce_columns (fuel : nat)
    (n_items window_w window_h padding min_cell_size : Z) (st : Z * Z)
  : result (Z * Z) :=
  let? s := reduce_step n_items window_w window_h padding min_cell_size st in
  match s with
  | inl final => Ok final
  | inr next =>
      match fuel with
      | O => Raise FuelExhausted
      | S fuel' =>
          reduce_columns fuel' n_items window_w window_h padding min_cell_size next
      end
  end.

(** [rows] is the value of [math.ceil(n_items / cols)], stated on integers. *)
Definition rows_for (n_items cols rows : Z) : Prop :=
  (rows - 1) * cols < n_items <= rows * cols.

(** [compute_grid_dimensions], returning
    [(cols, rows, cell_w, cell_h, left, top)]. *)
Definition compute_grid_dimensions
    (n_items window_w window_h padding min_cell_size : Z)
  : result (Z * Z * Z * Z * Z * Z) :=
  if n_items <=? 0 then Ok (0, 0, 0, 0, 0, 0)
  else
    let cols := ceil_sqrt n_items in
    let? q := truediv n_items cols in
    let rows := ceil q in
    let? cr := reduce_columns (Z.to_nat cols) n_items window_w window_h padding
            min_cell_size (cols, rows) in
    let '(cols, rows) := cr in
    let? qw := truediv (window_w - (cols + 1) * padding) cols in
    let cell_w := Z.max 1 (int qw) in
    let? qh := truediv (window_h - (rows + 1) * padding) rows in
    let cell_h := Z.max 1 (int qh) in
    let grid_w := cols * cell_w + (cols + 1) * padding in
    let grid_h := rows * cell_h + (rows + 1) * padding in
    let? ql := truediv (window_w - grid_w) 2 in
    let left := Z.max 0 (int ql) in
    let? qt := truediv (window_h - grid_h) 2 in
    let top := Z.max 0 (int qt) in
    Ok (cols, rows, cell_w, cell_h, left, top).

(** *** The active notes of [main] *)

(** A pending MIDI message, as far as [main] inspects it: its [type], and
    for the two note types its [note] and [velocity]. *)
Inductive message : Type :=
| note_on (note velocity : Z)
| note_off (note velocity : Z)
| other_message.

Section ActiveNotes.
(** [pygame.Surface] and the readings of [time.time()] are opaque here. *)
Context {Surface Time : Type}.

(** An entry of [images], built by [load_images]. *)
Record image_entry : Type := { img_surf : Surface; img_path : String.string }.

(** An entry of [active]. *)
Record display_entry : Type := { surf : Surface; on_time : Time }.

(** The body of [for msg in inport.iter_pending()] (lines 166-173);
    [now] is the value read from [time.time()] for this message. *)
Definition handle_message (images : gmap Z image_entry)
    (active : gmap Z display_entry) (msg : message) (now : Time)
  : gmap Z display_entry :=
  match msg with
  | note_on note velocity =>
      if velocity >? 0 then
        match images !! note with
        | Some img => <[note := {| surf := img_surf img; on_time := now |}]> active
        | None => active
        end
      else if velocity =? 0 then
        match active !! note with
        | Some _ => delete note active
        | None => active
        end
      else active
  | note_off note _ =>
      match active !! note with
      | Some _ => delete note active
      | None => active
      end
  | other_message => active
  end.

(** The whole [for] loop over the pending messages, each with its clock
    reading. *)
Definition handle_pending (images : gmap Z image_entry)
    (active : gmap Z display_entry) (pending : list (message * Time))
  : gmap Z display_entry :=
  fold_left (fun act mt => handle_message images act (fst mt) (snd mt))
    pending active.

(** [sorted(active.keys())] (line 187). *)
Definition sorted_notes (active : gmap Z display_entry) : list Z :=
  merge_sort Z.le (fst <$> map_to_list active).

End ActiveNotes.

(** *** The cells of the draw loop of [main] *)

(** [a // b] and [a % b] on two [int]s. *)
Definition floordiv (a b : Z) : result Z :=
  if b =? 0 then Raise ZeroDivisionError else Ok (a / b).

Definition modulo (a b : Z) : result Z :=
  if b =? 0 then Raise ZeroDivisionError else Ok (a mod b).

(** Lines 189-192 for the entry of rank [idx] in [sorted_notes]:
    [(row, col, cell_x, cell_y)]. *)
Definition cell_rect (layout : Z * Z * Z * Z * Z * Z) (grid_padding idx : Z)
  : result (Z * Z * Z * Z) :=
  let '(cols, rows, cell_w, cell_h, grid_left, grid_top) := layout in
  let? row := floordiv idx cols in
  let? col := modulo idx cols in
  let cell_x := grid_left + grid_padding + col * (cell_w + grid_padding) in
  let cell_y := grid_top + grid_padding + row * (cell_h + grid_padding) in
  Ok (row, col, cell_x, cell_y).

(** Lines 195-196: [(avail_w, avail_h)]. *)
Definition available_area (cell_w cell_h cell_margin : Z) : Z * Z :=
  (Z.max 1 (cell_w - 2 * cell_margin), Z.max 1 (cell_h - 2 * cell_margin)).

(** Lines 202-205: the corner [(pos_x, pos_y)] at which a scaled image of
    size [(sw, sh)] is blitted. *)
Definition blit_position (cell_x cell_y cell_w cell_h sw sh : Z) : Z * Z :=
  (cell_x + (cell_w - sw) / 2, cell_y + (cell_h - sh) / 2).

(** *** The choice of the input port *)

(** [s] starts with [sub]. *)
Fixpoint starts_with (sub s : String.string) : bool :=
  match sub, s with
  | EmptyString, _ => true
  | String a sub', String b s' => Ascii.eqb a b && starts_with sub' s'
  | String _ _, EmptyString => false
  end.

(** [sub in s] on two [str]s: [sub] starts at some position of [s]. *)
Fixpoint contains (sub s : String.string) : bool :=
  starts_with sub s
  || match s with
     | EmptyString => false
     | String _ s' => contains sub s'
     end.

(** How [choose_midi_port] ends: with a port name, or in [sys.exit]. *)
Inductive port_choice : Type :=
| Port (name : String.string)
| SystemExit (status : Z).

(** [choose_midi_port]; [ports] is the list that [mido.get_input_names()]
    returns, and [port_arg] is [None] or a [str].  What is printed is left
    out. *)
Definition choose_midi_port (ports : list String.string)
    (port_arg : option String.string) : port_choice :=
  match ports with
  | [] => SystemExit 1
  | first :: _ =>
      match port_arg with
      | Some arg =>
          if String.eqb arg EmptyString then Port first
          else
            match List.find (fun p => String.eqb arg p || contains arg p) ports with
            | Some p => Port p
            | None => SystemExit 1
            end
      | None => Port first
      end
  end.

(** *** The configuration *)

(** A value that [json.load] returns. *)
Inductive json : Type :=
| JNull
| JBool (b : bool)
| JInt (z : Z)
| JFloat (x : spec_float)
| JString (s : String.string)
| JArray (l : list json)
| JObject (fields : gmap String.string json).

(** [d.setdefault(key, default)] on a [dict]. *)
Definition setdefault (key : String.string) (default : json)
    (d : gmap String.string json) : gmap String.string json :=
  match d !! key with
  | Some _ => d
  | None => <[key := default]> d
  end.

(** The default of the key ["window"]. *)
Definition default_window : json :=
  JObject (<["width" := JInt 800]>
             (<["height" := JInt 600]>
                (<["bg_color" := JArray [JInt 0; JInt 0; JInt 0]]> ∅))).

(** [load_config], from the [dict] that [json.load] returned. *)
Definition load_config (parsed : gmap String.string json)
  : gmap String.string json :=
  let cfg := setdefault "image_folder" (JString "images") parsed in
  let cfg := setdefault "window" default_window cfg in
  let cfg := setdefault "scale_mode" (JString "fit") cfg in
  setdefault "notes" (JObject ∅) cfg.

(** [v.get(key, default)]; [None] when [v] is not a [dict] and the call
    raises. *)
Definition get_or (v : json) (key : String.string) (default : json)
  : option json :=
  match v with
  | JObject fields =>
      Some (match fields !! key with Some x => x | None => default end)
  | _ => None
  end.

(** The values that [main] reads at lines 129-137, before [int] is applied
    to them. *)
Record raw_settings : Type :=
  { raw_win_w : json; raw_win_h : json;
    raw_grid_padding : json; raw_cell_margin : json;
    raw_min_cell_size : json }.

(** Lines 129-137; [None] when one of the lookups raises. *)
Definition read_settings (cfg : gmap String.string json) : option raw_settings :=
  match cfg !! "window" with
  | None => None
  | Some window =>
      match get_or window "width" (JInt 1280),
            get_or window "height" (JInt 720) with
      | Some w, Some h =>
          let grid_cfg :=
            match cfg !! "grid" with Some g => g | None => JObject ∅ end in
          match get_or grid_cfg "padding" (JInt 8),
                get_or grid_cfg "cell_margin" (JInt 8),
                get_or grid_cfg "min_cell_size" (JInt 24) with
          | Some p, Some m, Some s =>
              Some {| raw_win_w := w; raw_win_h := h; raw_grid_padding := p;
                      raw_cell_margin := m; raw_min_cell_size := s |}
          | _, _, _ => None
          end
      | _, _ => None
      end
  end.

(** *** The images *)

Section LoadImages.
(** The file system and the decoders are external: [os.path.join],
    [os.path.isfile], [pygame.image.load(path).convert_alpha()] ([None] when
    it raises) and [int] on a [str]. *)
Context {Surface : Type}.
Variable path_join : String.string -> String.string -> String.string.
Variable isfile : String.string -> bool.
Variable image_load : String.string -> option Surface.
Variable int_of_str : String.string -> result Z.

(** The [for] loop of [load_images] over [note_map.items()], from the
    current [loaded] and [missing]. *)
Fixpoint load_images_from (image_folder : String.string)
    (items : list (String.string * String.string))
    (loaded : gmap Z (@image_entry Surface))
    (missing : list (String.string * String.string))
  : result (gmap Z (@image_entry Surface) * list (String.string * String.string)) :=
  match items with
  | [] => Ok (loaded, missing)
  | (note_str, fname) :: items' =>
      let path := path_join image_folder fname in
      if negb (isfile path) then
        load_images_from image_folder items' loaded (missing ++ [(note_str, path)])
      else
        match image_load path with
        | None =>
            load_images_from image_folder items' loaded
              (missing ++ [(note_str, path)])
        | Some surf =>
            let? note := int_of_str note_str in
            load_images_from image_folder items'
              (<[note := {| img_surf := surf; img_path := path |}]> loaded)
              missing
        end
  end.

(** [load_images]; the warnings that are printed are left out. *)
Definition load_images (image_folder : String.string)
    (note_map : list (String.string * String.string))
  : result (gmap Z (@image_entry Surface)) :=
  let? r := load_images_from image_folder note_map ∅ [] in
  Ok (fst r).

End LoadImages.

End Midi2img.

(** ** corruptize.py *)

Module Corruptize.
Import Py.

(** *** float32 and the Python [float] *)

Definition prec32 : Z := 24.
Definition emax32 : Z := 128.
Definition prec64 : Z := 53.
Definition emax64 : Z := 1024.

(** The rational value of a finite float [(-1)^s * m * 2^e]. *)
Definition F2Q (s : bool) (m : positive) (e : Z) : Q :=
  (inject_Z (cond_Zopp s (Zpos m)) * Qpower (2 # 1) e)%Q.

Definition SF2Q (x : spec_float) : Q :=
  match x with
  | S754_finite s m e => F2Q s m e
  | _ => 0%Q
  end.

(** IEEE comparison: the order of the values, [None] when an operand is
    NaN.  It is computed on the rational values, so that it is the order of
    the values for every representation [(s, m, e)]. *)
Definition f_compare (x y : spec_float) : option comparison :=
  match x, y with
  | S754_nan, _ | _, S754_nan => None
  | S754_infinity sx, S754_infinity sy =>
      Some (match sx, sy with
            | true, false => Lt
            | false, true => Gt
            | _, _ => Eq
            end)
  | S754_infinity sx, _ => Some (if sx then Lt else Gt)
  | _, S754_infinity sy => Some (if sy then Gt else Lt)
  | _, _ => Some (SF2Q x ?= SF2Q y)%Q
  end.

Definition f_eqb (x y : spec_float) : bool :=
  match f_compare x y with Some Eq => true | _ => false end.

(** Conversion of an integer, and rounding of a Python [float] to float32. *)
Definition f32_of_Z (z : Z) : spec_float := binary_normalize prec32 emax32 z 0 false.

Definition f32_of_f64 (x : spec_float) : spec_float :=
  match x with
  | S754_finite s m e => binary_round prec32 emax32 s m e
  | _ => x
  end.

Definition f32_add : spec_float -> spec_float -> spec_float := SFadd prec32 emax32.
Definition f32_sub : spec_float -> spec_float -> spec_float := SFsub prec32 emax32.
Definition f32_mul : spec_float -> spec_float -> spec_float := SFmul prec32 emax32.
Definition f32_div : spec_float -> spec_float -> spec_float := SFdiv prec32 emax32.
Definition f64_sub : spec_float -> spec_float -> spec_float := SFsub prec64 emax64.

Definition f32_zero : spec_float := S754_zero false.
Definition f32_one : spec_float := f32_of_Z 1.
Definition f32_two : spec_float := f32_of_Z 2.
Definition f32_half : spec_float := binary_normalize prec32 emax32 1 (-1) false.
Definition f32_255 : spec_float := f32_of_Z 255.

(** [np.minimum] and [np.maximum]: a NaN operand gives NaN. *)
Definition np_minimum (x y : spec_float) : spec_float :=
  match f_compare x y with
  | None => S754_nan
  | Some Gt => y
  | Some _ => x
  end.

Definition np_maximum (x y : spec_float) : spec_float :=
  match f_compare x y with
  | None => S754_nan
  | Some Lt => y
  | Some _ => x
  end.

(** [a.min()] and [a.max()]: a reduction over an empty array raises
    [ValueError]. *)
Definition array_min (a : list spec_float) : result spec_float :=
  match a with
  | [] => Raise ValueError
  | x :: a' => Ok (fold_left np_minimum a' x)
  end.

Definition array_max (a : list spec_float) : result spec_float :=
  match a with
  | [] => Raise ValueError
  | x :: a' => Ok (fold_left np_maximum a' x)
  end.

(** The integer part of [m * 2^e], towards zero. *)
Definition trunc_mant (m e : Z) : Z :=
  if 0 <=? e then m * 2 ^ e else Z.quot m (2 ^ (- e)).

(** [x.astype(np.uint8)] for one element: the C conversion truncates, and
    its result is only defined when the truncated value fits the type. *)
Definition astype_uint8 (x : spec_float) : result Z :=
  match x with
  | S754_zero _ => Ok 0
  | S754_finite s m e =>
      let t := trunc_mant (cond_Zopp s (Zpos m)) e in
      if (0 <=? t) && (t <=? 255) then Ok t else Raise UndefinedCast
  | _ => Raise UndefinedCast
  end.

(** *** Arrays *)

(** An array of three dimensions: its [shape] and its entries as nested
    lists, outermost axis first. *)
Record ndarray3 (A : Type) : Type :=
  { shape : nat * nat * nat; items : list (list (list A)) }.
Arguments shape {A} _.
Arguments items {A} _.
Arguments Build_ndarray3 {A} _ _.

Definition well_shaped {A : Type} (a : ndarray3 A) : Prop :=
  let '(h, w, c) := shape a in
  length (items a) = h /\
  Forall (fun row => length row = w /\ Forall (fun px => length px = c) row)
    (items a).

(** [a.flatten()]: the entries in row-major (C) order. *)
Definition flatten {A : Type} (a : ndarray3 A) : list A :=
  concat (map (@concat A) (items a)).

(** [count] consecutive pieces of [n] entries each. *)
Fixpoint pieces {A : Type} (count n : nat) (l : list A) : list (list A) :=
  match count with
  | O => []
  | S count' => firstn n l :: pieces count' n (skipn n l)
  end.

(** [flat.reshape(shape)]: the total size must match. *)
Definition reshape {A : Type} (flat : list A) (sh : nat * nat * nat)
  : result (ndarray3 A) :=
  let '(h, w, c) := sh in
  if Nat.eqb (length flat) (h * w * c) then
    Ok (Build_ndarray3 sh (map (pieces w c) (pieces h (w * c) flat)))
  else Raise ValueError.

(** Traversal of a list with a function that may raise. *)
Fixpoint map_result {A B : Type} (f : A -> result B) (l : list A)
  : result (list B) :=
  match l with
  | [] => Ok []
  | x :: l' =>
      let? y := f x in
      let? ys := map_result f l' in
      Ok (y :: ys)
  end.

(** *** The pipeline *)

Definition SAMPLE_RATE : Z := 44100.

(** Lines 50-57: the normalisation of the float32 signal.  [minv] and
    [maxv] are Python [float]s holding float32 values; their difference is
    computed in binary64, and a Python scalar that meets the float32 array
    is converted to float32 ([f32_of_f64]). *)
Definition normalize (audio_data : list spec_float) : result (list spec_float) :=
  let? minv := array_min audio_data in
  let? maxv := array_max audio_data in
  if f_eqb maxv minv then Ok (map (fun _ => f32_zero) audio_data)
  else
    let audio_data := map (fun x => f32_sub x (f32_of_f64 minv)) audio_data in
    let scale := f32_of_f64 (f64_sub maxv minv) in
    let audio_data := map (fun x => f32_div x scale) audio_data in
    Ok (map (fun x => f32_sub (f32_mul f32_two x) f32_one) audio_data).

(** Line 62 for one sample: [(processed + 1.0) * 0.5 * 255.0], and then
    [.clip(0, 255).astype(np.uint8)]. *)
Definition scaled_sample (s : spec_float) : spec_float :=
  f32_mul (f32_mul (f32_add s f32_one) f32_half) f32_255.

Definition denormalize_sample (s : spec_float) : result Z :=
  let clipped := np_minimum (np_maximum (scaled_sample s) f32_zero) f32_255 in
  astype_uint8 clipped.

Section Board.
(** The [Pedalboard] object and its call are external. *)
Context {Board : Type}.
Variable board_call : Board -> list spec_float -> Z -> list spec_float * Board.

(** [effect]; the global [_GLOBAL_BOARD] is passed in and out. *)
Definition effect (GLOBAL_BOARD : option Board) (audio_data : list spec_float)
    (fs frame_no frame_count : Z)
  : result (list spec_float * option Board) :=
  match GLOBAL_BOARD with
  | None => Raise TypeError
  | Some board =>
      let '(out, board') := board_call board audio_data fs in
      Ok (out, Some board')
  end.

Definition process_image_array (GLOBAL_BOARD : option Board)
    (image_array : ndarray3 Z) (frame_no total_frames : Z)
  : result (ndarray3 Z * option Board) :=
  let audio_data := map f32_of_Z (flatten image_array) in
  let? audio_data := normalize audio_data in
  let? r := effect GLOBAL_BOARD audio_data SAMPLE_RATE frame_no total_frames in
  let '(processed, GLOBAL_BOARD) := r in
  let? processed_bytes := map_result denormalize_sample processed in
  let? processed_img := reshape processed_bytes (shape image_array) in
  Ok (processed_img, GLOBAL_BOARD).
End Board.

(** A board without any effect unit: the signal goes through unchanged. *)
Definition no_effects (board : unit) (audio_data : list spec_float) (fs : Z)
  : list spec_float * unit :=
  (audio_data, board).

(** [init_worker]: the board is built on the first call only;
    [new_board] is the [Pedalboard] of lines 14-19. *)
Definition init_worker {Board : Type} (new_board : Board)
    (GLOBAL_BOARD : option Board) : option Board :=
  match GLOBAL_BOARD with
  | None => Some new_board
  | Some _ => GLOBAL_BOARD
  end.

End Corruptize.

(** ** The pipeline in the words of the specification *)

Module PipelineSpec.
Import Corruptize.

(** The byte range of a [uint8] sample. *)
Definition is_uint8 (x : Z) : Prop := 0 <= x <= 255.

(** Least and greatest sample of a frame that starts with [x]. *)
Definition sample_min (x : Z) (rest : list Z) : Z := fold_left Z.min rest x.
Definition sample_max (x : Z) (rest : list Z) : Z := fold_left Z.max rest x.

(** [2 * (x - lo) / (hi - lo) - 1] on rationals. *)
Definition normalized_exact (lo hi x : Z) : Q :=
  (2 * (inject_Z (x - lo) / inject_Z (hi - lo)) - 1)%Q.

(** The same formula evaluated in float32, in the order of lines 55-57. *)
Definition normalized_sample (lo hi x : Z) : spec_float :=
  f32_sub (f32_mul f32_two (f32_div (f32_of_Z (x - lo)) (f32_of_Z (hi - lo))))
    f32_one.

(** Neither infinite nor NaN. *)
Definition is_finite (x : spec_float) : bool :=
  match x with
  | S754_zero _ | S754_finite _ _ _ => true
  | _ => false
  end.

(** Equality of representations. *)
Definition SF_eqb (x y : spec_float) : bool :=
  match x, y with
  | S754_zero s, S754_zero s' => Bool.eqb s s'
  | S754_infinity s, S754_infinity s' => Bool.eqb s s'
  | S754_nan, S754_nan => true
  | S754_finite s m e, S754_finite s' m' e' =>
      Bool.eqb s s' && Pos.eqb m m' && Z.eqb e e'
  | _, _ => false
  end.

(** The 256 byte values, and the checks that are run over them. *)
Definition bytes : list Z := map Z.of_nat (seq 0 256).

(** A byte converts to float32 exactly, and survives the round trip through
    the Python [float]. *)
Definition byte_check (a : Z) : bool :=
  is_finite (f32_of_Z a) && Qeq_bool (SF2Q (f32_of_Z a)) (inject_Z a)
  && SF_eqb (f32_of_f64 (f32_of_Z a)) (f32_of_Z a).

(** The difference of two bytes is exact, in float32 and through the Python
    [float] subtraction. *)
Definition difference_check (a b : Z) : bool :=
  SF_eqb (f32_sub (f32_of_Z a) (f32_of_Z b)) (f32_of_Z (a - b))
  && SF_eqb (f32_of_f64 (f64_sub (f32_of_Z a) (f32_of_Z b))) (f32_of_Z (a - b)).

(** For a range [d >= 1] and an offset [k <= d], the float32 result lies in
    [-1, 1] and within 2^-24 of the exact quotient. *)
Definition normalized_check (d k : Z) : bool :=
  if (1 <=? d) && (k <=? d) then
    let y := normalized_sample 0 d k in
    is_finite y && Qle_bool (- (1)) (SF2Q y) && Qle_bool (SF2Q y) 1
    && Qle_bool (Qabs (SF2Q y - normalized_exact 0 d k)) (1 # 16777216)
  else true.

(** Rounding to the nearest integer, ties to the even one. *)
Definition Qround_half_even (q : Q) : Z :=
  let f := Qfloor q in
  match (q - inject_Z f ?= 1 # 2)%Q with
  | Lt => f
  | Gt => f + 1
  | Eq => if Z.even f then f else f + 1
  end.

(** [clip(round((s + 1) * 0.5 * 255), 0, 255)] for a finite scaled value:
    round first, then clamp. *)
Definition denormalize_rounded (s : spec_float) : Z :=
  Z.max 0 (Z.min 255 (Qround_half_even (SF2Q (scaled_sample s)))).

(** The value of a float that is not NaN, clamped to the byte range. *)
Definition clip_value (x : spec_float) : Q :=
  match x with
  | S754_infinity false => 255
  | S754_infinity true => 0
  | _ => if Qle_bool (SF2Q x) 0 then 0
         else if Qle_bool 255 (SF2Q x) then 255 else SF2Q x
  end%Q.

(** [clip((s + 1) * 0.5 * 255, 0, 255)] cut to its integer part: clamp
    first, then drop the fraction. *)
Definition denormalize_truncated (s : spec_float) : Z :=
  Qfloor (clip_value (scaled_sample s)).

(** A frame without any sample, of height 0. *)
Definition empty_frame : ndarray3 Z := Build_ndarray3 (0, 4, 3)%nat [].

(** The byte that a sample [x] of a frame with extremes [lo] and [hi]
    becomes when the signal is not altered between the normalisation and
    the denormalisation. *)
Definition stretched (lo hi x : Z) : Z :=
  if hi =? lo then denormalize_truncated f32_zero
  else denormalize_truncated (normalized_sample lo hi x).

(** For a range [d >= 1] and an offset [k <= d]: the stretched byte is the
    floor of [255 * k / d] or one less, and it is 255 at [k = d]. *)
Definition stretched_check (d k : Z) : bool :=
  if (1 <=? d) && (k <=? d) then
    let b := denormalize_truncated (normalized_sample 0 d k) in
    (255 * k / d - 1 <=? b) && (b <=? 255 * k / d)
    && (if k =? d then b =? 255 else true)
  else true.

End PipelineSpec.

(** ** The active notes in the words of a per-note state *)

Module NotesSpec.
Import Midi2img.

(** Whether [note] is held after the messages [pending], given whether it
    was held before: only the messages for [note] count, and the last one
    decides. *)
Definition held_after {Time : Type} (note : Z) (pending : list (message * Time))
    (before : bool) : bool :=
  fold_left
    (fun held mt =>
       match fst mt with
       | note_on k velocity =>
           if k =? note then
             if velocity >? 0 then true
             else if velocity =? 0 then false else held
           else held
       | note_off k _ => if k =? note then false else held
       | other_message => held
       end)
    pending before.

(** [sub] occurs in [s] as a run of consecutive characters. *)
Definition occurs_in (sub s : String.string) : Prop :=
  exists pre post, s = (pre ++ sub ++ post)%string.

(** The item [(note_str, fname)] of the note map yields the entry [e]
    under the key [k]: [int] accepts the key as [k], the path is a regular
    file, and the image loads as the surface of [e]. *)
Definition item_loads {Surface : Type}
    (path_join : String.string -> String.string -> String.string)
    (isfile : String.string -> bool)
    (image_load : String.string -> option Surface)
    (int_of_str : String.string -> Py.result Z)
    (image_folder : String.string)
    (item : String.string * String.string) (k : Z)
    (e : @image_entry Surface) : Prop :=
  int_of_str (fst item) = Py.Ok k /\
  isfile (path_join image_folder (snd item)) = true /\
  image_load (path_join image_folder (snd item)) = Some (img_surf e) /\
  img_path e = path_join image_folder (snd item).

End NotesSpec.

(** * Properties *)

Import Py.

(** ** Exact arithmetic of the embedding *)

Section PyArith.

Lemma truediv_ok (a b : Z) :
  b <> 0 -> truediv a b = Ok (inject_Z a / inject_Z b)%Q.
Proof.
  intros Hb. unfold truediv.
  destruct (Z.eqb_spec b 0) as [->|_]; [contradiction | reflexivity].
Qed.

(** [math.ceil(n / c)] is the least [r] with [n <= r * c]. *)
Lemma ceil_truediv_spec (n c : Z) :
  0 < c ->
  (ceil (inject_Z n / inject_Z c)%Q - 1) * c < n <= ceil (inject_Z n / inject_Z c)%Q * c.
Proof.
  intros Hc. unfold ceil.
  set (x := (inject_Z n / inject_Z c)%Q).
  pose proof (Qle_ceiling x) as Hle.
  pose proof (Qceiling_lt x) as Hlt.
  set (r := Qceiling x) in *.
  assert (Hx : (x * inject_Z c == inject_Z n)%Q).
  { unfold x. rewrite Qmult_comm. apply Qmult_div_r. unfold Qeq. simpl. lia. }
  assert (Hc' : (0 < inject_Z c)%Q) by (unfold Qlt; simpl; lia).
  split.
  - apply (Qmult_lt_r _ _ _ Hc') in Hlt. rewrite Hx in Hlt.
    rewrite <- inject_Z_mult in Hlt. now rewrite <- Zlt_Qlt in Hlt.
  - apply (Qmult_le_r _ _ _ Hc') in Hle. rewrite Hx in Hle.
    rewrite <- inject_Z_mult in Hle. now rewrite <- Zle_Qle in Hle.
Qed.

Lemma rows_unique (n c r r' : Z) :
  0 < c -> (r - 1) * c < n <= r * c -> (r' - 1) * c < n <= r' * c -> r = r'.
Proof. intros Hc H H'. nia. Qed.


Lemma ceil_sqrt_pos (n : Z) : 1 <= n -> 1 <= ceil_sqrt n.
Proof.
  intros Hn. unfold ceil_sqrt.
  pose proof (Z.sqrt_up_pos n). lia.
Qed.

End PyArith.

(** ** The grid layout *)

Import Midi2img.

Section GridLayout.

Variables n_items window_w window_h padding min_cell_size : Z.

Local Abbreviation fit := (candidates_fit window_w window_h padding min_cell_size).
Local Abbreviation step := (reduce_step n_items window_w window_h padding min_cell_size).
Local Abbreviation loop fuel :=
  (reduce_columns fuel n_items window_w window_h padding min_cell_size).

Local Abbreviation rows_for := (rows_for n_items).

Lemma rows_for_pos (cols rows : Z) :
  1 <= n_items -> 1 <= cols -> rows_for cols rows -> 1 <= rows.
Proof. unfold rows_for. intros Hn Hc H. nia. Qed.

Lemma candidates_fit_total (cols rows : Z) :
  1 <= cols -> 1 <= rows -> exists b, fit cols rows = Ok b.
Proof.
  intros Hc Hr. unfold candidates_fit.
  rewrite !truediv_ok by lia. simpl. eauto.
Qed.

(** A step that continues the loop has decremented [cols] and recomputed
    [rows]. *)
Lemma reduce_step_continue (cols rows cols' rows' : Z) :
  step (cols, rows) = Ok (inr (cols', rows')) ->
  1 < cols /\ cols' = cols - 1 /\ rows_for cols' rows' /\
  fit cols rows = Ok false.
Proof.
  unfold reduce_step. destruct (Z.gtb_spec cols 1) as [Hgt|Hle]; [|discriminate].
  destruct (fit cols rows) as [[|]|e]; simpl; try discriminate.
  rewrite truediv_ok by lia. simpl. intros [= <- <-].
  repeat split; try lia; apply ceil_truediv_spec; lia.
Qed.

(** A step that leaves the loop keeps the state; either [cols] is 1 or the
    candidates fit. *)
Lemma reduce_step_stop (cols rows cols' rows' : Z) :
  step (cols, rows) = Ok (inl (cols', rows')) ->
  cols' = cols /\ rows' = rows /\ (cols <= 1 \/ fit cols rows = Ok true).
Proof.
  unfold reduce_step. destruct (Z.gtb_spec cols 1) as [Hgt|Hle].
  - destruct (fit cols rows) as [[|]|e]; simpl; try discriminate.
    + intros [= <- <-]. auto.
    + destruct (truediv n_items (cols - 1)); discriminate.
  - intros [= <- <-]. auto.
Qed.

Lemma reduce_step_total (cols rows : Z) :
  1 <= cols -> 1 <= rows -> exists s, step (cols, rows) = Ok s.
Proof.
  intros Hc Hr. unfold reduce_step.
  destruct (Z.gtb_spec cols 1) as [Hgt|Hle]; [|eauto].
  destruct (candidates_fit_total cols rows Hc Hr) as [[|] ->]; simpl; [eauto|].
  rewrite truediv_ok by lia. simpl. eauto.
Qed.

Lemma reduce_columns_stop (fuel : nat) (st final : Z * Z) :
  step st = Ok (inl final) -> loop fuel st = Ok final.
Proof. intros H. destruct fuel; simpl; rewrite H; reflexivity. Qed.

Lemma reduce_columns_continue (fuel : nat) (st next : Z * Z) :
  step st = Ok (inr next) -> loop (S fuel) st = loop fuel next.
Proof. intros H. simpl. rewrite H. reflexivity. Qed.

(** The loop started on [(cols, rows)] with at least [cols - 1] units of
    fuel leaves on some [(cols', rows')]: every column count above [cols']
    was rejected, and [cols'] is 1 or fits. *)
Lemma reduce_columns_spec (fuel : nat) :
  1 <= n_items ->
  forall cols rows,
    1 <= cols -> cols - 1 <= Z.of_nat fuel -> rows_for cols rows ->
    exists cols' rows',
      loop fuel (cols, rows) = Ok (cols', rows') /\
      1 <= cols' <= cols /\ rows_for cols' rows' /\
      (forall c r, cols' < c <= cols -> rows_for c r -> fit c r = Ok false) /\
      (cols' = 1 \/ fit cols' rows' = Ok true).
Proof.
  intros Hn. induction fuel as [|fuel IH]; intros cols rows Hc Hf Hr.
  - assert (cols = 1) as -> by lia.
    exists 1, rows. rewrite (reduce_columns_stop _ _ (1, rows)) by reflexivity.
    refine (conj eq_refl (conj _ (conj Hr (conj _ _)))); [lia | intros; lia | auto].
  - pose proof (rows_for_pos _ _ Hn Hc Hr) as Hrows.
    destruct (reduce_step_total cols rows Hc Hrows) as [[[c1 r1]|[c1 r1]] Hs].
    + exists c1, r1. rewrite (reduce_columns_stop _ _ _ Hs).
      apply reduce_step_stop in Hs as (-> & -> & Hstop).
      refine (conj eq_refl (conj _ (conj Hr (conj _ _)))); [lia | intros; lia |].
      destruct Hstop as [Hle|Hfit]; [left; lia | right; exact Hfit].
    + rewrite (reduce_columns_continue _ _ _ Hs).
      apply reduce_step_continue in Hs as (Hgt & -> & Hr1 & Hrej).
      destruct (IH (cols - 1) r1) as (c2 & r2 & Heq & Hb & Hr2 & Hall & Hlast);
        [lia | lia | assumption |].
      exists c2, r2.
      refine (conj Heq (conj _ (conj Hr2 (conj _ Hlast)))); [lia |].
      intros c r Hcr Hrc.
      destruct (Z.eq_dec c cols) as [->|Hne].
      * rewrite (rows_unique n_items cols r rows); auto; lia.
      * apply Hall; auto; lia.
Qed.

(** The shape of the result for a positive item count. *)
Lemma compute_grid_dimensions_pos :
  1 <= n_items ->
  exists cols rows,
    reduce_columns (Z.to_nat (ceil_sqrt n_items)) n_items window_w window_h
      padding min_cell_size
      (ceil_sqrt n_items,
       ceil (inject_Z n_items / inject_Z (ceil_sqrt n_items))%Q)
    = Ok (cols, rows) /\
    1 <= cols <= ceil_sqrt n_items /\ rows_for cols rows /\
    (forall c r, cols < c <= ceil_sqrt n_items -> rows_for c r ->
                 fit c r = Ok false) /\
    (cols = 1 \/ fit cols rows = Ok true) /\
    let cell_w :=
      Z.max 1 (int (inject_Z (window_w - (cols + 1) * padding) / inject_Z cols)%Q) in
    let cell_h :=
      Z.max 1 (int (inject_Z (window_h - (rows + 1) * padding) / inject_Z rows)%Q) in
    let grid_w := cols * cell_w + (cols + 1) * padding in
    let grid_h := rows * cell_h + (rows + 1) * padding in
    compute_grid_dimensions n_items window_w window_h padding min_cell_size
    = Ok (cols, rows, cell_w, cell_h,
          Z.max 0 (int (inject_Z (window_w - grid_w) / 2)%Q),
          Z.max 0 (int (inject_Z (window_h - grid_h) / 2)%Q)).
Proof.
  intros Hn.
  pose proof (ceil_sqrt_pos n_items Hn) as Hc0.
  set (c0 := ceil_sqrt n_items) in *.
  destruct (reduce_columns_spec (Z.to_nat c0) Hn c0
              (ceil (inject_Z n_items / inject_Z c0)%Q))
    as (cols & rows & Hloop & Hb & Hr & Hall & Hlast);
    [lia | lia | apply ceil_truediv_spec; lia |].
  exists cols, rows.
  refine (conj Hloop (conj Hb (conj Hr (conj Hall (conj Hlast _))))).
  pose proof (rows_for_pos _ _ Hn (proj1 Hb) Hr) as Hrows.
  unfold compute_grid_dimensions.
  destruct (Z.leb_spec n_items 0) as [Hle|_]; [lia|].
  fold c0. rewrite (truediv_ok n_items c0) by lia. simpl.
  rewrite Hloop. simpl.
  rewrite !truediv_ok by lia. reflexivity.
Qed.

End GridLayout.



(** C6. On a canvas of 800 by 600 with padding 8 and minimal cell size 24,
    five items are laid out in 3 columns and 2 rows; the cell sizes are the
    floors of the candidate formulas, clamped to at least 1, and the grid is
    centred: the margin left of it equals the margin right of it, and
    likewise above and below. *)
Theorem compute_grid_dimensions_scenario :
  compute_grid_dimensions 5 800 600 8 24 = Ok (3, 2, 256, 288, 0, 0) /\
  ceil_sqrt 5 = 3 /\
  256 = Z.max 1 (Qfloor (inject_Z (800 - (3 + 1) * 8) / 3)%Q) /\
  288 = Z.max 1 (Qfloor (inject_Z (600 - (2 + 1) * 8) / 2)%Q) /\
  800 - (0 + (3 * 256 + (3 + 1) * 8)) = 0 /\
  600 - (0 + (2 * 288 + (2 + 1) * 8)) = 0.
Proof. repeat split; vm_compute; reflexivity. Qed.



(** C9. For an item count of zero or less, [compute_grid_dimensions]
    returns the all-zero layout whatever the other arguments are. *)
Theorem compute_grid_dimensions_degenerate
    (n_items window_w window_h padding min_cell_size : Z) :
  n_items <= 0 ->
  compute_grid_dimensions n_items window_w window_h padding min_cell_size
  = Ok (0, 0, 0, 0, 0, 0).
Proof.
  intros Hn. unfold compute_grid_dimensions.
  destruct (Z.leb_spec n_items 0) as [_|Hgt]; [reflexivity | lia].
Qed.

Lemma compute_grid_dimensions_degenerate_witness :
  0 <= 0 /\ compute_grid_dimensions 0 800 600 8 24 = Ok (0, 0, 0, 0, 0, 0).
Proof.
  split; [lia | apply (compute_grid_dimensions_degenerate 0 800 600 8 24); lia].
Defined.

(** ** The active notes *)

Section ActiveNotesFacts.

Context {Surface Time : Type}.
Implicit Types (images : gmap Z (@image_entry Surface)).
Implicit Types (active : gmap Z (@display_entry Surface Time)).

Lemma handle_message_note_on images active note velocity now img :
  0 < velocity -> images !! note = Some img ->
  handle_message images active (note_on note velocity) now
  = <[note := {| surf := img_surf img; on_time := now |}]> active.
Proof.
  intros Hv Hi. unfold handle_message.
  destruct (Z.gtb_spec velocity 0) as [_|Hle]; [|lia].
  rewrite Hi. reflexivity.
Qed.

Lemma handle_message_note_off images active note velocity now :
  handle_message images active (note_off note velocity) now = delete note active.
Proof.
  unfold handle_message. destruct (active !! note) eqn:Hl; [reflexivity|].
  symmetry. apply delete_id. exact Hl.
Qed.

(** The render order lists exactly the keys of [active], in ascending
    order, whatever order the map enumerates them in. *)
Lemma sorted_notes_spec active :
  Sorted Z.le (sorted_notes active) /\
  forall note, note ∈ sorted_notes active <-> is_Some (active !! note).
Proof.
  unfold sorted_notes. split.
  - apply (Sorted_merge_sort Z.le).
  - intros note. rewrite merge_sort_Permutation.
    rewrite list_elem_of_fmap. split.
    + intros [[k d] [-> Hin]]. apply elem_of_map_to_list in Hin.
      simpl. eauto.
    + intros [d Hd]. exists (note, d). split; [reflexivity|].
      apply elem_of_map_to_list. exact Hd.
Qed.

End ActiveNotesFacts.

(** C7. From an empty active set, note-on 60, note-on 64 (both with a
    positive velocity and both mapped to loaded images) and then note-off 60
    leave exactly note 64 active, and the ascending render order is the
    sequence 64. *)
Theorem active_notes_scenario {Surface Time : Type}
    (images : gmap Z (@image_entry Surface))
    (v60 v64 voff : Z) (t1 t2 t3 : Time) :
  is_Some (images !! 60) -> is_Some (images !! 64) ->
  0 < v60 -> 0 < v64 ->
  let active :=
    handle_pending images ∅
      [(note_on 60 v60, t1); (note_on 64 v64, t2); (note_off 60 voff, t3)] in
  dom active = {[ 64 ]} /\ sorted_notes active = [64].
Proof.
  intros [i60 H60] [i64 H64] Hv60 Hv64. cbv zeta.
  unfold handle_pending. cbn [fold_left fst snd].
  rewrite (handle_message_note_on _ _ _ _ _ i60 Hv60 H60).
  rewrite (handle_message_note_on _ _ _ _ _ i64 Hv64 H64).
  rewrite handle_message_note_off.
  rewrite delete_insert_ne by lia.
  rewrite delete_insert_eq, delete_empty, insert_empty.
  split.
  - apply dom_singleton_L.
  - unfold sorted_notes. rewrite map_to_list_singleton. reflexivity.
Qed.

Lemma active_notes_scenario_witness :
  let images : gmap Z (@image_entry nat) :=
    <[64 := {| img_surf := 2%nat; img_path := "e4.png" |}]>
      (<[60 := {| img_surf := 1%nat; img_path := "c4.png" |}]> ∅) in
  is_Some (images !! 60) /\ is_Some (images !! 64) /\ 0 < 100 /\ 0 < 90 /\
  let active :=
    handle_pending images (∅ : gmap Z (@display_entry nat nat))
      [(note_on 60 100, 1%nat); (note_on 64 90, 2%nat); (note_off 60 0, 3%nat)] in
  dom active = {[ 64 ]} /\ sorted_notes active = [64].
Proof.
  cbv zeta.
  assert (H60 : is_Some ((<[64 := {| img_surf := 2%nat; img_path := "e4.png" |}]>
      (<[60 := {| img_surf := 1%nat; img_path := "c4.png" |}]> ∅)
      : gmap Z (@image_entry nat)) !! 60)) by (eexists; vm_compute; reflexivity).
  assert (H64 : is_Some ((<[64 := {| img_surf := 2%nat; img_path := "e4.png" |}]>
      (<[60 := {| img_surf := 1%nat; img_path := "c4.png" |}]> ∅)
      : gmap Z (@image_entry nat)) !! 64)) by (eexists; vm_compute; reflexivity).
  split; [exact H60|]. split; [exact H64|].
  split; [lia|]. split; [lia|].
  apply (active_notes_scenario _ 100 90 0 1%nat 2%nat 3%nat H60 H64); lia.
Defined.

(** C10. A note-on with a positive velocity for a note that has no loaded
    image leaves the active set as it was: nothing is inserted, no entry is
    changed, and the handler returns normally. *)
Theorem note_on_unmapped_ignored {Surface Time : Type}
    (images : gmap Z (@image_entry Surface))
    (active : gmap Z (@display_entry Surface Time))
    (note velocity : Z) (now : Time) :
  0 < velocity -> images !! note = None ->
  handle_message images active (note_on note velocity) now = active.
Proof.
  intros Hv Hi. unfold handle_message.
  destruct (Z.gtb_spec velocity 0) as [_|Hle]; [|lia].
  rewrite Hi. reflexivity.
Qed.

Lemma note_on_unmapped_ignored_witness :
  let images : gmap Z (@image_entry nat) :=
    <[60 := {| img_surf := 1%nat; img_path := "c4.png" |}]> ∅ in
  let active : gmap Z (@display_entry nat nat) :=
    <[60 := {| surf := 1%nat; on_time := 5%nat |}]> ∅ in
  0 < 100 /\ images !! 61 = None /\
  handle_message images active (note_on 61 100) 7%nat = active.
Proof.
  cbv zeta. split; [lia|].
  assert (H61 : (<[60 := {| img_surf := 1%nat; img_path := "c4.png" |}]> ∅
                 : gmap Z (@image_entry nat)) !! 61 = None)
    by (vm_compute; reflexivity).
  split; [exact H61|].
  apply (note_on_unmapped_ignored _ _ 61 100 7%nat); [lia | exact H61].
Defined.

(** ** Flattening and reshaping *)

Import Corruptize PipelineSpec.

Section Arrays.

Context {A : Type}.
Implicit Types (l : list A) (ll : list (list A)).

Lemma length_concat_uniform ll (n : nat) :
  Forall (fun l => length l = n) ll -> length (concat ll) = (length ll * n)%nat.
Proof.
  induction 1 as [|l ll Hl _ IH]; simpl; [reflexivity|].
  rewrite length_app, IH, Hl. reflexivity.
Qed.

(** Cutting a concatenation of equally long lists gives the lists back. *)
Lemma pieces_concat ll (n : nat) :
  Forall (fun l => length l = n) ll -> pieces (length ll) n (concat ll) = ll.
Proof.
  induction 1 as [|l ll Hl _ IH]; simpl; [reflexivity|].
  rewrite <- Hl at 1 3.
  rewrite firstn_app, Nat.sub_diag, firstn_all, firstn_O, app_nil_r.
  rewrite skipn_app, Nat.sub_diag, skipn_all, skipn_O. simpl.
  rewrite IH. reflexivity.
Qed.

(** Entry [j] of the [i]-th list sits at position [i * n + j] of the
    concatenation. *)
Lemma lookup_concat_uniform ll (n i j : nat) l :
  Forall (fun l => length l = n) ll ->
  ll !! i = Some l -> (j < n)%nat ->
  concat ll !! (i * n + j)%nat = l !! j.
Proof.
  intros Hall. revert i. induction Hall as [|l0 ll Hl0 _ IH]; intros i Hi Hj.
  - discriminate.
  - destruct i as [|i]; simpl in *.
    + injection Hi as ->. apply lookup_app_l. lia.
    + rewrite lookup_app_r by lia.
      replace (n + i * n + j - length l0)%nat with (i * n + j)%nat by lia.
      apply IH; assumption.
Qed.

End Arrays.

Section Frames.

Context {A : Type}.

Lemma well_shaped_rows (a : ndarray3 A) (h w c : nat) :
  shape a = (h, w, c) -> well_shaped a ->
  length (items a) = h /\
  Forall (fun row => length row = w /\ Forall (fun px => length px = c) row)
    (items a) /\
  Forall (fun l => length l = (w * c)%nat) (map (@concat A) (items a)).
Proof.
  unfold well_shaped. intros ->. intros [Hh Hrows].
  split; [exact Hh|]. split; [exact Hrows|].
  apply Forall_map. eapply Forall_impl; [exact Hrows|].
  intros row [Hw Hc]. simpl. rewrite (length_concat_uniform row c Hc), Hw.
  reflexivity.
Qed.

Lemma length_flatten (a : ndarray3 A) (h w c : nat) :
  shape a = (h, w, c) -> well_shaped a ->
  length (flatten a) = (h * w * c)%nat.
Proof.
  intros Hs Hwf. destruct (well_shaped_rows a h w c Hs Hwf) as (Hh & _ & Hflat).
  unfold flatten. rewrite (length_concat_uniform _ _ Hflat), length_map, Hh.
  lia.
Qed.

End Frames.

(** C4. For every frame, flattening it and reshaping the flat sequence with
    the geometry of the frame gives the frame back.  The flat sequence is in
    row-major order: the sample of row [i], column [j] and channel [k] sits
    at position [(i * W + j) * C + k]. *)
Theorem flatten_reshape_roundtrip {A : Type} (a : ndarray3 A) :
  well_shaped a ->
  reshape (flatten a) (shape a) = Ok a /\
  forall h w c i j k row px x,
    shape a = (h, w, c) ->
    items a !! i = Some row -> row !! j = Some px -> px !! k = Some x ->
    flatten a !! ((i * w + j) * c + k)%nat = Some x.
Proof.
  intros Hwf. destruct a as [[[h w] c] rows].
  set (a := Build_ndarray3 (h, w, c) rows) in *.
  destruct (well_shaped_rows a h w c eq_refl Hwf) as (Hh & Hrows & Hflat).
  pose proof (length_flatten a h w c eq_refl Hwf) as Hlen.
  subst a.
  simpl in *. split.
  - unfold reshape. rewrite Hlen, Nat.eqb_refl. f_equal. f_equal.
    unfold flatten. simpl.
    rewrite <- Hh, <- (length_map (@concat A) rows).
    rewrite (pieces_concat _ _ Hflat), map_map.
    clear Hh Hlen Hflat Hwf. induction Hrows as [|row rows' [Hw Hc] _ IH];
      simpl; [reflexivity|].
    rewrite IH. f_equal. rewrite <- Hw. apply pieces_concat. exact Hc.
  - intros h' w' c' i j k row px x [= <- <- <-] Hi Hj Hk.
    destruct (Forall_lookup_1 _ _ _ _ Hrows Hi) as [Hw Hc].
    assert (Hjw : (j < w)%nat).
    { rewrite <- Hw. eapply lookup_lt_Some. exact Hj. }
    assert (Hkc : (k < c)%nat).
    { rewrite <- (Forall_lookup_1 _ _ _ _ Hc Hj).
      eapply lookup_lt_Some. exact Hk. }
    unfold flatten. simpl.
    replace ((i * w + j) * c + k)%nat with (i * (w * c) + (j * c + k))%nat by lia.
    rewrite (lookup_concat_uniform _ (w * c) i (j * c + k) (concat row) Hflat).
    + rewrite (lookup_concat_uniform _ c j k px Hc Hj Hkc). exact Hk.
    + rewrite list_lookup_fmap, Hi. reflexivity.
    + nia.
Qed.

Lemma flatten_reshape_roundtrip_witness :
  let a := Build_ndarray3 (2, 2, 3)%nat
             [[[0; 10; 20]; [30; 40; 50]]; [[60; 70; 80]; [90; 100; 255]]] in
  well_shaped a /\
  reshape (flatten a) (shape a) = Ok a /\
  forall h w c i j k row px x,
    shape a = (h, w, c) ->
    items a !! i = Some row -> row !! j = Some px -> px !! k = Some x ->
    flatten a !! ((i * w + j) * c + k)%nat = Some x.
Proof.
  cbv zeta.
  assert (Hwf : well_shaped (Build_ndarray3 (2, 2, 3)%nat
             [[[0; 10; 20]; [30; 40; 50]]; [[60; 70; 80]; [90; 100; 255]]])).
  { unfold well_shaped. simpl. repeat constructor. }
  split; [exact Hwf | apply (flatten_reshape_roundtrip _ Hwf)].
Defined.

(** ** The empty frame *)

Lemma flatten_empty {A : Type} (a : ndarray3 A) (h w c : nat) :
  shape a = (h, w, c) -> well_shaped a -> (h * w = 0)%nat -> flatten a = [].
Proof.
  intros Hs Hwf Hz. apply length_zero_iff_nil.
  rewrite (length_flatten a h w c Hs Hwf), Hz. reflexivity.
Qed.

(** C2, as the code has it.  On a frame without samples the reduction
    [min()] of the normalisation raises [ValueError]; neither the effect nor
    the denormalisation is reached, and no buffer is returned. *)
Theorem process_image_array_empty_raises {Board : Type}
    (board_call : Board -> list spec_float -> Z -> list spec_float * Board)
    (GLOBAL_BOARD : option Board) (image_array : ndarray3 Z)
    (h w c : nat) (frame_no total_frames : Z) :
  shape image_array = (h, w, c) -> well_shaped image_array ->
  (h * w = 0)%nat ->
  normalize (map f32_of_Z (flatten image_array)) = Raise ValueError /\
  process_image_array board_call GLOBAL_BOARD image_array frame_no total_frames
  = Raise ValueError.
Proof.
  intros Hs Hwf Hz. unfold process_image_array.
  rewrite (flatten_empty image_array h w c Hs Hwf Hz). split; reflexivity.
Qed.

Lemma process_image_array_empty_raises_witness :
  shape empty_frame = (0, 4, 3)%nat /\ well_shaped empty_frame /\
  (0 * 4 = 0)%nat /\
  normalize (map f32_of_Z (flatten empty_frame)) = Raise ValueError /\
  process_image_array no_effects (Some tt) empty_frame 0 1 = Raise ValueError.
Proof.
  assert (Hwf : well_shaped empty_frame).
  { unfold well_shaped. simpl. split; [reflexivity | constructor]. }
  split; [reflexivity|]. split; [exact Hwf|]. split; [reflexivity|].
  apply (process_image_array_empty_raises no_effects (Some tt) empty_frame
           0 4 3 0 1 eq_refl Hwf eq_refl).
Defined.

(** C2, as the specification states it, fails on the frame of height 0 with
    a board without effect units: the call raises instead of returning an
    empty buffer. *)
Lemma process_image_array_empty_counterexample :
  well_shaped empty_frame /\ flatten empty_frame = [] /\
  process_image_array no_effects (Some tt) empty_frame 0 1 = Raise ValueError /\
  ~ (exists out board,
       process_image_array no_effects (Some tt) empty_frame 0 1
       = Ok (out, board)).
Proof.
  split; [unfold well_shaped; simpl; split; [reflexivity | constructor]|].
  split; [reflexivity|]. split; [reflexivity|].
  intros (out & board & H). discriminate H.
Qed.

(** ** Facts on float32 values *)

Section Rounding.

Variables prec emax : Z.

Lemma shr_1_nonneg (mrs : shr_record) :
  0 <= shr_m mrs -> 0 <= shr_m (shr_1 mrs).
Proof.
  destruct mrs as [m r s]. simpl. intros Hm.
  destruct m as [|p|p]; [simpl; lia | destruct p; simpl; lia | lia].
Qed.

Lemma iter_pos_preserves {T : Type} (P : T -> Prop) (f : T -> T) :
  (forall x, P x -> P (f x)) ->
  forall p x, P x -> P (SpecFloat.iter_pos f p x).
Proof.
  intros Hf. induction p as [p IH|p IH|]; intros x Hx; simpl; auto.
Qed.

Lemma shr_fexp_nonneg (m e : Z) (l : location) :
  0 <= m -> 0 <= shr_m (fst (shr_fexp prec emax m e l)).
Proof.
  intros Hm. unfold shr_fexp, shr.
  assert (H0 : 0 <= shr_m (shr_record_of_loc m l)).
  { destruct l as [|[| |]]; simpl; exact Hm. }
  destruct (fexp prec emax (Zdigits2 m + e) - e) as [|p|p]; simpl; auto.
  apply (iter_pos_preserves (fun r => 0 <= shr_m r)); auto using shr_1_nonneg.
Qed.

Lemma round_nearest_even_nonneg (m : Z) (l : location) :
  0 <= m -> 0 <= round_nearest_even m l.
Proof.
  intros Hm. unfold round_nearest_even.
  destruct l as [|[| |]]; try destruct (Z.even m); lia.
Qed.

(** Rounding a non-negative mantissa never produces NaN. *)
Lemma binary_round_aux_not_nan (sx : bool) (mx ex : Z) (lx : location) :
  0 <= mx -> binary_round_aux prec emax sx mx ex lx <> S754_nan.
Proof.
  intros Hm. unfold binary_round_aux.
  pose proof (shr_fexp_nonneg mx ex lx Hm) as H1.
  destruct (shr_fexp prec emax mx ex lx) as [mrs' e']. simpl in H1.
  pose proof (shr_fexp_nonneg _ e' loc_Exact
                (round_nearest_even_nonneg _ (loc_of_shr_record mrs') H1)) as H2.
  destruct (shr_fexp prec emax _ e' loc_Exact) as [mrs'' e'']. simpl in H2.
  destruct (shr_m mrs'') as [|p|p]; [discriminate | | lia].
  destruct (e'' <=? emax - prec); discriminate.
Qed.

Lemma binary_round_not_nan (sx : bool) (mx : positive) (ex : Z) :
  binary_round prec emax sx mx ex <> S754_nan.
Proof.
  unfold binary_round. destruct (shl_align mx ex _) as [mz ez].
  apply binary_round_aux_not_nan. lia.
Qed.

Lemma binary_normalize_not_nan (m e : Z) (szero : bool) :
  binary_normalize prec emax m e szero <> S754_nan.
Proof.
  unfold binary_normalize.
  destruct m; [discriminate | apply binary_round_not_nan ..].
Qed.

(** Sum and product with a finite non-zero operand. *)
Lemma SFadd_finite_not_nan (x : spec_float) (s : bool) (m : positive) (e : Z) :
  x <> S754_nan -> SFadd prec emax x (S754_finite s m e) <> S754_nan.
Proof.
  intros Hx. destruct x as [sx|sx| |sx mx ex]; simpl;
    [discriminate | discriminate | contradiction |].
  apply binary_normalize_not_nan.
Qed.

Lemma SFmul_finite_not_nan (x : spec_float) (s : bool) (m : positive) (e : Z) :
  x <> S754_nan -> SFmul prec emax x (S754_finite s m e) <> S754_nan.
Proof.
  intros Hx. destruct x as [sx|sx| |sx mx ex]; simpl;
    [discriminate | discriminate | contradiction |].
  apply binary_round_aux_not_nan. lia.
Qed.

End Rounding.

Section Values.

Lemma Qpower2_nonneg (e : Z) : 0 <= e -> ((2 # 1) ^ e == inject_Z (2 ^ e))%Q.
Proof. intros He. symmetry. apply (Zpower_Qpower 2 e He). Qed.

Lemma F2Q_pos (m : positive) (e : Z) : (0 < F2Q false m e)%Q.
Proof.
  unfold F2Q. simpl cond_Zopp.
  apply Qmult_lt_0_compat; [reflexivity | apply Qpower_0_lt; reflexivity].
Qed.

Lemma F2Q_neg (m : positive) (e : Z) : (F2Q true m e < 0)%Q.
Proof.
  assert (H : (F2Q true m e == - F2Q false m e)%Q).
  { unfold F2Q. simpl cond_Zopp.
    rewrite inject_Z_opp.
    generalize ((2 # 1) ^ e)%Q, (inject_Z (Z.pos m)). intros q a. ring. }
  rewrite H. pose proof (F2Q_pos m e) as Hp.
  apply Qopp_lt_compat in Hp. exact Hp.
Qed.

(** The integer part of a positive float is the floor of its value. *)
Lemma trunc_mant_floor (m : positive) (e : Z) :
  trunc_mant (Zpos m) e = Qfloor (F2Q false m e).
Proof.
  unfold trunc_mant, F2Q. simpl cond_Zopp.
  destruct (Z.leb_spec 0 e) as [He|He].
  - rewrite (Qpower2_nonneg e He), <- inject_Z_mult. symmetry. apply Qfloor_Z.
  - replace e with (- (- e)) at 2 by lia.
    rewrite Qpower_opp, (Qpower2_nonneg (- e)) by lia.
    rewrite Z.quot_div_nonneg by lia.
    apply Zdiv_Qdiv.
Qed.

Lemma f32_one_eq : f32_one = S754_finite false 8388608 (-23).
Proof. reflexivity. Qed.

Lemma f32_half_eq : f32_half = S754_finite false 8388608 (-24).
Proof. reflexivity. Qed.

Lemma f32_255_eq : f32_255 = S754_finite false 16711680 (-16).
Proof. reflexivity. Qed.

Lemma f32_255_value : (SF2Q f32_255 == 255)%Q.
Proof. reflexivity. Qed.

(** The scaled sample of a sample that is not NaN is not NaN. *)
Lemma scaled_sample_not_nan (s : spec_float) :
  s <> S754_nan -> scaled_sample s <> S754_nan.
Proof.
  intros Hs. unfold scaled_sample, f32_mul, f32_add.
  rewrite f32_one_eq, f32_half_eq, f32_255_eq.
  auto using SFmul_finite_not_nan, SFadd_finite_not_nan.
Qed.

End Values.

(** ** Denormalisation *)

(** Clamping by comparisons and cutting the mantissa agree with clamping
    the value and taking its floor. *)
Lemma astype_clip_value (v : spec_float) :
  v <> S754_nan ->
  astype_uint8 (np_minimum (np_maximum v f32_zero) f32_255)
  = Ok (Qfloor (clip_value v)).
Proof.
  intros Hv. destruct v as [s|s| |s m e]; [| |contradiction|].
  - destruct s; reflexivity.
  - destruct s; reflexivity.
  - destruct s.
    + pose proof (F2Q_neg m e) as Hneg.
      assert (Hc : (F2Q true m e ?= 0)%Q = Lt) by (apply Qlt_alt; exact Hneg).
      unfold np_maximum, f_compare, f32_zero. simpl SF2Q. rewrite Hc.
      unfold clip_value. simpl SF2Q.
      assert (Hle : Qle_bool (F2Q true m e) 0 = true)
        by (apply Qle_bool_iff, Qlt_le_weak; exact Hneg).
      rewrite Hle. reflexivity.
    + pose proof (F2Q_pos m e) as Hpos.
      assert (Hc : (F2Q false m e ?= 0)%Q = Gt) by (apply Qgt_alt; exact Hpos).
      unfold np_maximum, f_compare, f32_zero. simpl SF2Q. rewrite Hc.
      assert (Hle : Qle_bool (F2Q false m e) 0 = false).
      { destruct (Qle_bool (F2Q false m e) 0) eqn:E; [|reflexivity].
        apply Qle_bool_iff in E. exfalso. exact (Qlt_not_le _ _ Hpos E). }
      unfold clip_value. simpl SF2Q. rewrite Hle.
      unfold np_minimum, f_compare. rewrite f32_255_eq. simpl SF2Q.
      rewrite <- f32_255_eq.
      change (F2Q false 16711680 (-16)) with (SF2Q f32_255).
      rewrite f32_255_value.
      destruct (Qcompare_spec (F2Q false m e) 255) as [Heq|Hlt|Hgt].
      * assert (H255 : Qle_bool 255 (F2Q false m e) = true)
          by (apply Qle_bool_iff; rewrite Heq; apply Qle_refl).
        rewrite H255. unfold astype_uint8. simpl cond_Zopp.
        assert (Hf : Qfloor (F2Q false m e) = 255) by (rewrite Heq; reflexivity).
        rewrite trunc_mant_floor, Hf. reflexivity.
      * assert (H255 : Qle_bool 255 (F2Q false m e) = false).
        { destruct (Qle_bool 255 (F2Q false m e)) eqn:E; [|reflexivity].
          apply Qle_bool_iff in E. exfalso. exact (Qlt_not_le _ _ Hlt E). }
        rewrite H255. unfold astype_uint8. simpl cond_Zopp.
        rewrite trunc_mant_floor.
        assert (H0 : 0 <= Qfloor (F2Q false m e)).
        { change 0 with (Qfloor 0). apply Qfloor_resp_le, Qlt_le_weak, Hpos. }
        assert (H1 : Qfloor (F2Q false m e) <= 255).
        { change 255 with (Qfloor 255). apply Qfloor_resp_le, Qlt_le_weak, Hlt. }
        destruct (Z.leb_spec 0 (Qfloor (F2Q false m e))); [|lia].
        destruct (Z.leb_spec (Qfloor (F2Q false m e)) 255); [|lia].
        reflexivity.
      * assert (H255 : Qle_bool 255 (F2Q false m e) = true)
          by (apply Qle_bool_iff, Qlt_le_weak; exact Hgt).
        rewrite H255. reflexivity.
Qed.

Lemma clip_value_range (v : spec_float) : (0 <= clip_value v <= 255)%Q.
Proof.
  unfold clip_value.
  assert (H : (0 <= (if Qle_bool (SF2Q v) 0 then 0
                     else if Qle_bool 255 (SF2Q v) then 255 else SF2Q v) <= 255)%Q).
  { destruct (Qle_bool (SF2Q v) 0) eqn:E0; [split; discriminate|].
    destruct (Qle_bool 255 (SF2Q v)) eqn:E1; [split; discriminate|].
    split.
    - destruct (Qlt_le_dec (SF2Q v) 0) as [Hlt|Hge]; [|exact Hge].
      apply Qlt_le_weak, Qle_bool_iff in Hlt. congruence.
    - destruct (Qlt_le_dec 255 (SF2Q v)) as [Hlt|Hge]; [|exact Hge].
      apply Qlt_le_weak, Qle_bool_iff in Hlt. congruence. }
  destruct v as [s|[|]| |s m e]; try exact H; split; discriminate.
Qed.

(** C3, as the code has it.  For every processed sample that is not NaN,
    the denormalisation returns the byte obtained by clamping the scaled
    value [(s + 1) * 0.5 * 255] to [0, 255] and then dropping its fraction:
    the value is truncated, not rounded to the nearest integer. *)
Theorem denormalize_sample_truncates (s : spec_float) :
  s <> S754_nan ->
  denormalize_sample s = Ok (denormalize_truncated s) /\
  0 <= denormalize_truncated s <= 255 /\
  (inject_Z (denormalize_truncated s) <= clip_value (scaled_sample s)
   < inject_Z (denormalize_truncated s + 1))%Q.
Proof.
  intros Hs. unfold denormalize_sample, denormalize_truncated. cbv zeta.
  split; [apply astype_clip_value, scaled_sample_not_nan, Hs|].
  pose proof (clip_value_range (scaled_sample s)) as [H0 H255].
  split; [|split; [apply Qfloor_le | apply Qlt_floor]].
  split.
  - change 0 with (Qfloor 0). apply Qfloor_resp_le, H0.
  - change 255 with (Qfloor 255). apply Qfloor_resp_le, H255.
Qed.

Lemma denormalize_sample_truncates_witness :
  SFopp f32_half <> S754_nan /\
  denormalize_sample (SFopp f32_half)
  = Ok (denormalize_truncated (SFopp f32_half)) /\
  0 <= denormalize_truncated (SFopp f32_half) <= 255 /\
  (inject_Z (denormalize_truncated (SFopp f32_half))
   <= clip_value (scaled_sample (SFopp f32_half))
   < inject_Z (denormalize_truncated (SFopp f32_half) + 1))%Q.
Proof.
  assert (H : SFopp f32_half <> S754_nan) by (vm_compute; discriminate).
  split; [exact H | apply (denormalize_sample_truncates (SFopp f32_half) H)].
Defined.

(** C3, as the specification states it, fails at the sample -0.5: the
    scaled value is 63.75, which rounds to 64, and the code returns 63. *)
Lemma denormalize_rounded_counterexample :
  (SF2Q (SFopp f32_half) == - (1 # 2))%Q /\
  (SF2Q (scaled_sample (SFopp f32_half)) == 255 # 4)%Q /\
  denormalize_rounded (SFopp f32_half) = 64 /\
  denormalize_sample (SFopp f32_half) = Ok 63 /\
  denormalize_sample (SFopp f32_half)
  <> Ok (denormalize_rounded (SFopp f32_half)).
Proof.
  split; [reflexivity|]. split; [reflexivity|]. split; [reflexivity|].
  split; [reflexivity|]. vm_compute. discriminate.
Qed.

(** ** Normalisation *)

Section ByteChecks.

Lemma in_bytes (a : Z) : is_uint8 a -> In a bytes.
Proof.
  intros [H0 H255]. unfold bytes. apply in_map_iff.
  exists (Z.to_nat a). split; [lia|]. apply in_seq. lia.
Qed.

Lemma forall_bytes (P : Z -> bool) :
  forallb P bytes = true -> forall a, is_uint8 a -> P a = true.
Proof.
  intros H a Ha. rewrite forallb_forall in H. apply H, in_bytes, Ha.
Qed.

Lemma forall_bytes2 (P : Z -> Z -> bool) :
  forallb (fun a => forallb (P a) bytes) bytes = true ->
  forall a b, is_uint8 a -> is_uint8 b -> P a b = true.
Proof.
  intros H a b Ha Hb.
  apply (forall_bytes (P a)); [|exact Hb].
  apply (forall_bytes (fun a => forallb (P a) bytes) H a Ha).
Qed.

Lemma SF_eqb_eq (x y : spec_float) : SF_eqb x y = true -> x = y.
Proof.
  destruct x as [s|s| |s m e], y as [s'|s'| |s' m' e']; simpl;
    try discriminate; try reflexivity.
  - intros H. apply eqb_prop in H. congruence.
  - intros H. apply eqb_prop in H. congruence.
  - intros H. apply andb_prop in H as [H He]. apply andb_prop in H as [Hs Hm].
    apply eqb_prop in Hs. apply Pos.eqb_eq in Hm. apply Z.eqb_eq in He.
    congruence.
Qed.

Lemma all_bytes_checked : forallb byte_check bytes = true.
Proof. vm_compute. reflexivity. Qed.

Lemma all_differences_checked :
  forallb (fun a => forallb (difference_check a) bytes) bytes = true.
Proof. vm_compute. reflexivity. Qed.

Lemma all_normalized_checked :
  forallb (fun d => forallb (normalized_check d) bytes) bytes = true.
Proof. vm_compute. reflexivity. Qed.

End ByteChecks.

Section ByteSignal.

Lemma byte_facts (a : Z) :
  is_uint8 a ->
  is_finite (f32_of_Z a) = true /\ (SF2Q (f32_of_Z a) == inject_Z a)%Q /\
  f32_of_f64 (f32_of_Z a) = f32_of_Z a.
Proof.
  intros Ha. pose proof (forall_bytes _ all_bytes_checked a Ha) as H.
  unfold byte_check in H.
  apply andb_prop in H as [H H3]. apply andb_prop in H as [H1 H2].
  split; [exact H1|]. split; [apply Qeq_bool_eq, H2 | apply SF_eqb_eq, H3].
Qed.

Lemma f_compare_finite (x y : spec_float) :
  is_finite x = true -> is_finite y = true ->
  f_compare x y = Some (SF2Q x ?= SF2Q y)%Q.
Proof.
  destruct x as [s|s| |s m e], y as [s'|s'| |s' m' e']; simpl;
    try discriminate; reflexivity.
Qed.

(** On bytes the float comparison is the integer comparison. *)
Lemma f_compare_bytes (a b : Z) :
  is_uint8 a -> is_uint8 b ->
  f_compare (f32_of_Z a) (f32_of_Z b) = Some (a ?= b).
Proof.
  intros Ha Hb.
  destruct (byte_facts a Ha) as (Fa & Va & _).
  destruct (byte_facts b Hb) as (Fb & Vb & _).
  rewrite (f_compare_finite _ _ Fa Fb), Va, Vb.
  unfold Qcompare. simpl. rewrite !Z.mul_1_r. reflexivity.
Qed.

Lemma np_minimum_bytes (a b : Z) :
  is_uint8 a -> is_uint8 b ->
  np_minimum (f32_of_Z a) (f32_of_Z b) = f32_of_Z (Z.min a b).
Proof.
  intros Ha Hb. unfold np_minimum. rewrite (f_compare_bytes a b Ha Hb).
  unfold Z.min. destruct (a ?= b); reflexivity.
Qed.

Lemma np_maximum_bytes (a b : Z) :
  is_uint8 a -> is_uint8 b ->
  np_maximum (f32_of_Z a) (f32_of_Z b) = f32_of_Z (Z.max a b).
Proof.
  intros Ha Hb. unfold np_maximum. rewrite (f_compare_bytes a b Ha Hb).
  unfold Z.max. destruct (a ?= b); reflexivity.
Qed.

Lemma f_eqb_bytes (a b : Z) :
  is_uint8 a -> is_uint8 b -> f_eqb (f32_of_Z a) (f32_of_Z b) = (a =? b).
Proof.
  intros Ha Hb. unfold f_eqb. rewrite (f_compare_bytes a b Ha Hb).
  destruct (Z.compare_spec a b), (Z.eqb_spec a b); try reflexivity; lia.
Qed.

(** The least and the greatest sample are samples' bounds and bytes. *)
Lemma sample_min_spec (x : Z) (rest : list Z) :
  Forall is_uint8 (x :: rest) ->
  is_uint8 (sample_min x rest) /\
  Forall (fun s => sample_min x rest <= s) (x :: rest) /\
  fold_left np_minimum (map f32_of_Z rest) (f32_of_Z x)
  = f32_of_Z (sample_min x rest).
Proof.
  unfold sample_min. revert x.
  induction rest as [|y rest IH]; intros x Hall.
  - apply Forall_cons_1 in Hall as [Hx _]. simpl.
    split; [exact Hx|]. split; [|reflexivity].
    constructor; [lia | constructor].
  - apply Forall_cons_1 in Hall as [Hx Hall].
    pose proof Hall as Hall'. apply Forall_cons_1 in Hall' as [Hy Hrest].
    assert (Hm : is_uint8 (Z.min x y)) by (unfold is_uint8 in *; lia).
    destruct (IH (Z.min x y)) as (Hb & Hle & Heq).
    { constructor; assumption. }
    simpl. rewrite (np_minimum_bytes x y Hx Hy).
    split; [exact Hb|]. split; [|exact Heq].
    apply Forall_cons_1 in Hle as [Hle0 Hle].
    constructor; [lia|]. constructor; [lia | exact Hle].
Qed.

Lemma sample_max_spec (x : Z) (rest : list Z) :
  Forall is_uint8 (x :: rest) ->
  is_uint8 (sample_max x rest) /\
  Forall (fun s => s <= sample_max x rest) (x :: rest) /\
  fold_left np_maximum (map f32_of_Z rest) (f32_of_Z x)
  = f32_of_Z (sample_max x rest).
Proof.
  unfold sample_max. revert x.
  induction rest as [|y rest IH]; intros x Hall.
  - apply Forall_cons_1 in Hall as [Hx _]. simpl.
    split; [exact Hx|]. split; [|reflexivity].
    constructor; [lia | constructor].
  - apply Forall_cons_1 in Hall as [Hx Hall].
    pose proof Hall as Hall'. apply Forall_cons_1 in Hall' as [Hy Hrest].
    assert (Hm : is_uint8 (Z.max x y)) by (unfold is_uint8 in *; lia).
    destruct (IH (Z.max x y)) as (Hb & Hle & Heq).
    { constructor; assumption. }
    simpl. rewrite (np_maximum_bytes x y Hx Hy).
    split; [exact Hb|]. split; [|exact Heq].
    apply Forall_cons_1 in Hle as [Hle0 Hle].
    constructor; [lia|]. constructor; [lia | exact Hle].
Qed.

(** Lines 55-57 on one byte [s] between [lo] and [hi]. *)
Lemma normalize_steps (lo hi s : Z) :
  is_uint8 lo -> is_uint8 hi -> is_uint8 s -> lo <= s <= hi ->
  f32_sub
    (f32_mul f32_two
       (f32_div (f32_sub (f32_of_Z s) (f32_of_f64 (f32_of_Z lo)))
          (f32_of_f64 (f64_sub (f32_of_Z hi) (f32_of_Z lo)))))
    f32_one
  = normalized_sample lo hi s.
Proof.
  intros Hlo Hhi Hs Hb.
  destruct (byte_facts lo Hlo) as (_ & _ & ->).
  pose proof (forall_bytes2 _ all_differences_checked s lo Hs Hlo) as H1.
  pose proof (forall_bytes2 _ all_differences_checked hi lo Hhi Hlo) as H2.
  unfold difference_check in H1, H2.
  apply andb_prop in H1 as [H1 _]. apply andb_prop in H2 as [_ H2].
  rewrite (SF_eqb_eq _ _ H1), (SF_eqb_eq _ _ H2). reflexivity.
Qed.

(** Range and accuracy of one normalised sample. *)
Lemma normalized_sample_bounds (lo hi s : Z) :
  is_uint8 lo -> is_uint8 hi -> lo <= s <= hi -> lo <> hi ->
  is_finite (normalized_sample lo hi s) = true /\
  (- (1) <= SF2Q (normalized_sample lo hi s) <= 1)%Q /\
  (Qabs (SF2Q (normalized_sample lo hi s) - normalized_exact lo hi s)
   <= 1 # 16777216)%Q.
Proof.
  intros Hlo Hhi Hb Hne.
  assert (Hd : is_uint8 (hi - lo)) by (unfold is_uint8 in *; lia).
  assert (Hk : is_uint8 (s - lo)) by (unfold is_uint8 in *; lia).
  pose proof (forall_bytes2 _ all_normalized_checked _ _ Hd Hk) as H.
  unfold normalized_check in H.
  destruct (Z.leb_spec 1 (hi - lo)) as [_|?]; [|lia].
  destruct (Z.leb_spec (s - lo) (hi - lo)) as [_|?]; [|lia].
  cbv zeta in H. simpl andb in H.
  unfold normalized_sample, normalized_exact in *.
  rewrite !Z.sub_0_r in H.
  apply andb_prop in H as [H H4]. apply andb_prop in H as [H H3].
  apply andb_prop in H as [H1 H2].
  apply Qle_bool_iff in H2, H3, H4. auto.
Qed.

End ByteSignal.

(** C5. On a non-empty frame of bytes, the normalisation returns a signal.
    If the greatest sample equals the least one, every entry of the signal
    is 0.0.  Otherwise the entry for a sample [s] is the float32 evaluation
    of [2 * (s - min) / (max - min) - 1]; it is a finite number of [-1, 1],
    within 2^-24 of the exact value of the formula. *)
Theorem normalize_bytes (x : Z) (rest : list Z) :
  Forall is_uint8 (x :: rest) ->
  let lo := sample_min x rest in
  let hi := sample_max x rest in
  exists signal,
    normalize (map f32_of_Z (x :: rest)) = Ok signal /\
    (hi = lo -> signal = map (fun _ => f32_zero) (x :: rest)) /\
    (hi <> lo ->
     signal = map (normalized_sample lo hi) (x :: rest) /\
     Forall (fun s =>
               is_finite (normalized_sample lo hi s) = true /\
               (- (1) <= SF2Q (normalized_sample lo hi s) <= 1)%Q /\
               (Qabs (SF2Q (normalized_sample lo hi s) - normalized_exact lo hi s)
                <= 1 # 16777216)%Q)
       (x :: rest)).
Proof.
  intros Hall lo hi.
  destruct (sample_min_spec x rest Hall) as (Hlo & Hmin & Emin).
  destruct (sample_max_spec x rest Hall) as (Hhi & Hmax & Emax).
  fold lo in Hlo, Hmin, Emin. fold hi in Hhi, Hmax, Emax.
  assert (Hbounds : forall s, In s (x :: rest) -> is_uint8 s /\ lo <= s <= hi).
  { intros s Hs. rewrite Forall_forall in Hall, Hmin, Hmax.
    apply list_elem_of_In in Hs. auto. }
  unfold normalize.
  change (array_min (map f32_of_Z (x :: rest)))
    with (Ok (fold_left np_minimum (map f32_of_Z rest) (f32_of_Z x))).
  change (array_max (map f32_of_Z (x :: rest)))
    with (Ok (fold_left np_maximum (map f32_of_Z rest) (f32_of_Z x))).
  rewrite Emin, Emax. cbn [bind].
  rewrite (f_eqb_bytes hi lo Hhi Hlo).
  destruct (Z.eqb_spec hi lo) as [Heq|Hne].
  - eexists. split; [reflexivity|]. split; [|contradiction].
    intros _. apply map_map.
  - eexists. split; [reflexivity|]. split; [contradiction|].
    intros _. split.
    + rewrite !map_map. apply map_ext_in. intros s Hs.
      destruct (Hbounds s Hs) as [Hs8 Hsb].
      apply normalize_steps; assumption.
    + apply List.Forall_forall. intros s Hs.
      destruct (Hbounds s Hs) as [Hs8 Hsb].
      apply normalized_sample_bounds; auto.
Qed.

Lemma normalize_bytes_witness :
  Forall is_uint8 [0; 10; 20; 255] /\
  let lo := sample_min 0 [10; 20; 255] in
  let hi := sample_max 0 [10; 20; 255] in
  exists signal,
    normalize (map f32_of_Z [0; 10; 20; 255]) = Ok signal /\
    (hi = lo -> signal = map (fun _ => f32_zero) [0; 10; 20; 255]) /\
    (hi <> lo ->
     signal = map (normalized_sample lo hi) [0; 10; 20; 255] /\
     Forall (fun s =>
               is_finite (normalized_sample lo hi s) = true /\
               (- (1) <= SF2Q (normalized_sample lo hi s) <= 1)%Q /\
               (Qabs (SF2Q (normalized_sample lo hi s) - normalized_exact lo hi s)
                <= 1 # 16777216)%Q)
       [0; 10; 20; 255]).
Proof.
  assert (H : Forall is_uint8 [0; 10; 20; 255])
    by (repeat constructor; unfold is_uint8; lia).
  split; [exact H | apply (normalize_bytes 0 [10; 20; 255] H)].
Defined.

(** ** The whole pipeline on small frames *)

(** With a board without effect units, a flat frame comes back as the flat
    frame of value 127 and of the same shape: the round trip of C4 concerns
    [flatten] and [reshape], not the normalisation between them. *)
Example process_image_array_flat_frame :
  process_image_array no_effects (Some tt)
    (Build_ndarray3 (1, 2, 3)%nat [[[7; 7; 7]; [7; 7; 7]]]) 0 1
  = Ok (Build_ndarray3 (1, 2, 3)%nat [[[127; 127; 127]; [127; 127; 127]]],
        Some tt).
Proof. vm_compute. reflexivity. Qed.

(** Without a board the call of [effect] raises, after the normalisation. *)
Example process_image_array_no_board :
  process_image_array no_effects None
    (Build_ndarray3 (1, 1, 3)%nat [[[0; 128; 255]]]) 0 1
  = Raise TypeError.
Proof. vm_compute. reflexivity. Qed.

(** The extreme samples of a frame are sent to the ends of the byte range. *)
Example process_image_array_extremes :
  process_image_array no_effects (Some tt)
    (Build_ndarray3 (1, 1, 3)%nat [[[0; 128; 255]]]) 0 1
  = Ok (Build_ndarray3 (1, 1, 3)%nat [[[0; 128; 255]]], Some tt).
Proof. vm_compute. reflexivity. Qed.

(** * Further properties of the code *)

(** ** The geometry of the layout *)

Section LayoutGeometry.

Lemma int_truediv (a c : Z) :
  0 < c -> int (inject_Z a / inject_Z c)%Q = Z.quot a c.
Proof.
  intros Hc. destruct c as [|p|p]; try lia.
  unfold int, Qdiv, Qinv, Qmult, inject_Z. simpl.
  rewrite Z.mul_1_r. reflexivity.
Qed.

(** A quotient that reaches the integer [m] still reaches it after
    truncation. *)
Lemma int_ge (a c m : Z) :
  0 < c -> ge_int (inject_Z a / inject_Z c)%Q m = true ->
  m <= int (inject_Z a / inject_Z c)%Q.
Proof.
  intros Hc H. rewrite (int_truediv a c Hc).
  unfold ge_int in H. apply Qle_bool_iff in H.
  assert (Hm : m * c <= a).
  { apply (Qmult_le_r _ _ (inject_Z c)) in H; [|unfold Qlt; simpl; lia].
    rewrite (Qmult_comm (_ / _)), Qmult_div_r in H
      by (unfold Qeq; simpl; lia).
    rewrite <- inject_Z_mult, <- Zle_Qle in H. exact H. }
  clear H. pose proof (Z.quot_rem' a c) as Hqr.
  assert (Hr : - c < Z.rem a c < c).
  { pose proof (Z.rem_bound_abs a c ltac:(lia)). lia. }
  assert (Hlt : (m - 1) * c < Z.quot a c * c) by lia.
  apply Z.mul_lt_mono_pos_r in Hlt; lia.
Qed.

(** The pieces of a layout returned for a positive item count. *)
Lemma layout_inversion
    (n_items window_w window_h padding min_cell_size : Z)
    (cols rows cell_w cell_h left top : Z) :
  1 <= n_items ->
  compute_grid_dimensions n_items window_w window_h padding min_cell_size
  = Ok (cols, rows, cell_w, cell_h, left, top) ->
  1 <= cols <= ceil_sqrt n_items /\ 1 <= rows /\ rows_for n_items cols rows /\
  (cols = 1 \/
   candidates_fit window_w window_h padding min_cell_size cols rows = Ok true) /\
  cell_w = Z.max 1 (Z.quot (window_w - (cols + 1) * padding) cols) /\
  cell_h = Z.max 1 (Z.quot (window_h - (rows + 1) * padding) rows) /\
  left = Z.max 0 (Z.quot (window_w - (cols * cell_w + (cols + 1) * padding)) 2) /\
  top = Z.max 0 (Z.quot (window_h - (rows * cell_h + (rows + 1) * padding)) 2).
Proof.
  intros Hn Hres.
  destruct (compute_grid_dimensions_pos n_items window_w window_h padding
              min_cell_size Hn)
    as (c & r & _ & Hb & Hr & _ & Hlast & Heq).
  cbv zeta in Heq. rewrite Heq in Hres. injection Hres as <- <- <- <- <- <-.
  pose proof (rows_for_pos n_items c r Hn (proj1 Hb) Hr) as Hrows.
  change 2%Q with (inject_Z 2).
  rewrite !int_truediv by lia. auto 10.
Qed.



End LayoutGeometry.

(** X1. When the layout that is returned has more than one column, both
    cell sizes reach [min_cell_size]: a smaller cell is only ever returned
    in a single column. *)
Theorem multi_column_cells_reach_minimum
    (n_items window_w window_h padding min_cell_size : Z)
    (cols rows cell_w cell_h left top : Z) :
  1 <= n_items ->
  compute_grid_dimensions n_items window_w window_h padding min_cell_size
  = Ok (cols, rows, cell_w, cell_h, left, top) ->
  1 < cols ->
  min_cell_size <= cell_w /\ min_cell_size <= cell_h.
Proof.
  intros Hn Hres Hcols.
  destruct (layout_inversion _ _ _ _ _ _ _ _ _ _ _ Hn Hres)
    as (Hb & Hrows & _ & Hlast & Hw & Hh & _ & _).
  destruct Hlast as [H1|Hfit]; [lia|].
  unfold candidates_fit in Hfit. rewrite !truediv_ok in Hfit by lia.
  simpl in Hfit. injection Hfit as Hfit. apply andb_prop in Hfit as [Hfw Hfh].
  apply int_ge in Hfw; [|lia]. apply int_ge in Hfh; [|lia].
  rewrite int_truediv in Hfw, Hfh by lia. lia.
Qed.

Lemma multi_column_cells_reach_minimum_witness :
  1 <= 5 /\
  compute_grid_dimensions 5 800 600 8 24 = Ok (3, 2, 256, 288, 0, 0) /\
  1 < 3 /\ 24 <= 256 /\ 24 <= 288.
Proof.
  assert (H : compute_grid_dimensions 5 800 600 8 24 = Ok (3, 2, 256, 288, 0, 0))
    by (vm_compute; reflexivity).
  split; [lia|]. split; [exact H|]. split; [lia|].
  apply (multi_column_cells_reach_minimum 5 800 600 8 24 3 2 256 288 0 0);
    [lia | exact H | lia].
Defined.





(** ** The cells of the draw loop *)

Lemma cell_rect_ok (cols rows cell_w cell_h left top grid_padding idx : Z) :
  cols <> 0 ->
  cell_rect (cols, rows, cell_w, cell_h, left, top) grid_padding idx
  = Ok (idx / cols, idx mod cols,
        left + grid_padding + (idx mod cols) * (cell_w + grid_padding),
        top + grid_padding + (idx / cols) * (cell_h + grid_padding)).
Proof.
  intros Hc. unfold cell_rect, floordiv, modulo.
  destruct (Z.eqb_spec cols 0) as [|_]; [contradiction | reflexivity].
Qed.



(** X5. With a padding that is not negative, the cells of two different
    ranks do not overlap: one of them ends before the other starts, along
    the horizontal or along the vertical axis. *)
Theorem cells_do_not_overlap
    (n_items window_w window_h padding min_cell_size : Z)
    (cols rows cell_w cell_h left top : Z)
    (idx idx' row col cell_x cell_y row' col' cell_x' cell_y' : Z) :
  1 <= n_items ->
  compute_grid_dimensions n_items window_w window_h padding min_cell_size
  = Ok (cols, rows, cell_w, cell_h, left, top) ->
  0 <= padding -> idx <> idx' ->
  cell_rect (cols, rows, cell_w, cell_h, left, top) padding idx
  = Ok (row, col, cell_x, cell_y) ->
  cell_rect (cols, rows, cell_w, cell_h, left, top) padding idx'
  = Ok (row', col', cell_x', cell_y') ->
  cell_x + cell_w <= cell_x' \/ cell_x' + cell_w <= cell_x \/
  cell_y + cell_h <= cell_y' \/ cell_y' + cell_h <= cell_y.
Proof.
  intros Hn Hres Hp Hne H1 H2.
  destruct (layout_inversion _ _ _ _ _ _ _ _ _ _ _ Hn Hres)
    as (Hb & Hrows & _ & _ & Hw & Hh & _ & _).
  rewrite cell_rect_ok in H1, H2 by lia.
  injection H1 as <- <- <- <-. injection H2 as <- <- <- <-.
  pose proof (Z.div_mod idx cols ltac:(lia)) as Hd.
  pose proof (Z.div_mod idx' cols ltac:(lia)) as Hd'.
  assert (Hcw : 1 <= cell_w) by lia. assert (Hch : 1 <= cell_h) by lia.
  clear Hw Hh Hres.
  set (c := idx mod cols) in *. set (c' := idx' mod cols) in *.
  set (r := idx / cols) in *. set (r' := idx' / cols) in *.
  destruct (Z.lt_total c c') as [Hc|[Hc|Hc]].
  - left. nia.
  - destruct (Z.lt_total r r') as [Hr|[Hr|Hr]].
    + right. right. left. nia.
    + exfalso. apply Hne. rewrite Hd, Hd', Hc. fold r r'. rewrite Hr.
      reflexivity.
    + right. right. right. nia.
  - right. left. nia.
Qed.

Lemma cells_do_not_overlap_witness :
  1 <= 5 /\
  compute_grid_dimensions 5 800 600 8 24 = Ok (3, 2, 256, 288, 0, 0) /\
  0 <= 8 /\ 2 <> 3 /\
  cell_rect (3, 2, 256, 288, 0, 0) 8 2 = Ok (0, 2, 536, 8) /\
  cell_rect (3, 2, 256, 288, 0, 0) 8 3 = Ok (1, 0, 8, 304) /\
  (536 + 256 <= 8 \/ 8 + 256 <= 536 \/ 8 + 288 <= 304 \/ 304 + 288 <= 8).
Proof.
  assert (H : compute_grid_dimensions 5 800 600 8 24 = Ok (3, 2, 256, 288, 0, 0))
    by (vm_compute; reflexivity).
  assert (H2 : cell_rect (3, 2, 256, 288, 0, 0) 8 2 = Ok (0, 2, 536, 8))
    by (vm_compute; reflexivity).
  assert (H3 : cell_rect (3, 2, 256, 288, 0, 0) 8 3 = Ok (1, 0, 8, 304))
    by (vm_compute; reflexivity).
  split; [lia|]. split; [exact H|]. split; [lia|]. split; [lia|].
  split; [exact H2|]. split; [exact H3|].
  apply (cells_do_not_overlap 5 800 600 8 24 3 2 256 288 0 0 2 3
           0 2 536 8 1 0 8 304); [lia | exact H | lia | lia | exact H2 | exact H3].
Defined.



(** X7. In a cell of at least one pixel and with a margin that is not
    negative, the available area is at least one pixel and at most the cell
    in each direction; an image that is not larger than the available area
    is blitted inside the cell, and centred in it to within one pixel. *)
Theorem blit_inside_cell
    (cell_x cell_y cell_w cell_h cell_margin sw sh : Z) :
  1 <= cell_w -> 1 <= cell_h -> 0 <= cell_margin ->
  let '(avail_w, avail_h) := available_area cell_w cell_h cell_margin in
  1 <= avail_w <= cell_w /\ 1 <= avail_h <= cell_h /\
  (0 <= sw <= avail_w -> 0 <= sh <= avail_h ->
   let '(pos_x, pos_y) := blit_position cell_x cell_y cell_w cell_h sw sh in
   cell_x <= pos_x /\ pos_x + sw <= cell_x + cell_w /\
   0 <= (cell_x + cell_w - (pos_x + sw)) - (pos_x - cell_x) <= 1 /\
   cell_y <= pos_y /\ pos_y + sh <= cell_y + cell_h /\
   0 <= (cell_y + cell_h - (pos_y + sh)) - (pos_y - cell_y) <= 1).
Proof.
  intros Hw Hh Hm. unfold available_area, blit_position.
  split; [lia|]. split; [lia|]. intros Hsw Hsh.
  pose proof (Z.div_mod (cell_w - sw) 2 ltac:(lia)).
  pose proof (Z.mod_pos_bound (cell_w - sw) 2 ltac:(lia)).
  pose proof (Z.div_mod (cell_h - sh) 2 ltac:(lia)).
  pose proof (Z.mod_pos_bound (cell_h - sh) 2 ltac:(lia)).
  repeat split; lia.
Qed.

Lemma blit_inside_cell_witness :
  1 <= 256 /\ 1 <= 288 /\ 0 <= 8 /\
  let '(avail_w, avail_h) := available_area 256 288 8 in
  1 <= avail_w <= 256 /\ 1 <= avail_h <= 288 /\
  (0 <= 240 <= avail_w -> 0 <= 135 <= avail_h ->
   let '(pos_x, pos_y) := blit_position 8 8 256 288 240 135 in
   8 <= pos_x /\ pos_x + 240 <= 8 + 256 /\
   0 <= (8 + 256 - (pos_x + 240)) - (pos_x - 8) <= 1 /\
   8 <= pos_y /\ pos_y + 135 <= 8 + 288 /\
   0 <= (8 + 288 - (pos_y + 135)) - (pos_y - 8) <= 1).
Proof.
  split; [lia|]. split; [lia|]. split; [lia|].
  apply (blit_inside_cell 8 8 256 288 8 240 135); lia.
Defined.

(** ** Invariants of the active notes *)

Section ActiveNotesInvariants.

Context {Surface Time : Type}.
Implicit Types (images : gmap Z (@image_entry Surface)).
Implicit Types (active : gmap Z (@display_entry Surface Time)).

(** Every active note has a loaded image and shows its surface. *)
Local Abbreviation shows_images images active :=
  (forall note d, active !! note = Some d ->
     exists img, images !! note = Some img /\ surf d = img_surf img).

Lemma handle_message_shows_images images active msg now :
  shows_images images active ->
  shows_images images (handle_message images active msg now).
Proof.
  intros Hinv. destruct msg as [k v|k v|].
  - unfold handle_message. destruct (v >? 0).
    + destruct (images !! k) as [img|] eqn:Hk; [|exact Hinv].
      intros note d. destruct (decide (k = note)) as [->|Hne].
      * rewrite lookup_insert_eq. intros [= <-]. eauto.
      * rewrite lookup_insert_ne by done. apply Hinv.
    + destruct (v =? 0); [|exact Hinv].
      destruct (active !! k) as [e|]; [|exact Hinv].
      intros note d Hd. apply lookup_delete_Some in Hd as [_ Hd]. eauto.
  - rewrite handle_message_note_off.
    intros note d Hd. apply lookup_delete_Some in Hd as [_ Hd]. eauto.
  - exact Hinv.
Qed.

Lemma handle_pending_shows_images images active pending :
  shows_images images active ->
  shows_images images (handle_pending images active pending).
Proof.
  unfold handle_pending. revert active.
  induction pending as [|[msg now] pending IH]; intros active Hinv; simpl.
  - exact Hinv.
  - apply IH, handle_message_shows_images, Hinv.
Qed.

(** A message for another note leaves the entry of [note] alone. *)
Lemma handle_message_other_note images active msg now note :
  match msg with
  | note_on k _ | note_off k _ => k <> note
  | other_message => True
  end ->
  handle_message images active msg now !! note = active !! note.
Proof.
  destruct msg as [k v|k v|]; intros Hk; [| |reflexivity].
  - unfold handle_message. destruct (v >? 0).
    + destruct (images !! k); [|reflexivity]. apply lookup_insert_ne, Hk.
    + destruct (v =? 0); [|reflexivity].
      destruct (active !! k); [|reflexivity]. apply lookup_delete_ne, Hk.
  - rewrite handle_message_note_off. apply lookup_delete_ne, Hk.
Qed.

End ActiveNotesInvariants.

(** X8. Whatever messages are handled from the empty set on, every active
    note has a loaded image and its entry holds the surface of that
    image; in particular there are never more active notes than loaded
    images. *)
Theorem active_notes_have_images {Surface Time : Type}
    (images : gmap Z (@image_entry Surface))
    (pending : list (message * Time)) :
  let active := handle_pending images ∅ pending in
  (forall note d, active !! note = Some d ->
     exists img, images !! note = Some img /\ surf d = img_surf img) /\
  dom active ⊆ dom images /\
  (size active <= size images)%nat.
Proof.
  cbv zeta.
  assert (Hinv : forall note d,
             handle_pending images ∅ pending !! note = Some d ->
             exists img, images !! note = Some img /\ surf d = img_surf img).
  { apply handle_pending_shows_images. intros note d Hd.
    rewrite lookup_empty in Hd. discriminate. }
  assert (Hdom : dom (handle_pending images (∅ : gmap Z (@display_entry Surface Time))
                        pending) ⊆ dom images).
  { intros note Hn. apply elem_of_dom in Hn as [d Hd].
    destruct (Hinv note d Hd) as (img & Hi & _).
    apply elem_of_dom. eauto. }
  split; [exact Hinv|]. split; [exact Hdom|].
  rewrite <- !size_dom. apply subseteq_size, Hdom.
Qed.

(** X9. A note-on with a positive velocity for a note with a loaded image
    leaves that note active with the surface of the image and the current
    time, changes no other entry, and adds one to the number of active notes
    exactly when the note was not active before. *)
Theorem note_on_mapped_entry {Surface Time : Type}
    (images : gmap Z (@image_entry Surface))
    (active : gmap Z (@display_entry Surface Time))
    (note velocity : Z) (now : Time) (img : image_entry) :
  0 < velocity -> images !! note = Some img ->
  let active' := handle_message images active (note_on note velocity) now in
  active' !! note = Some {| surf := img_surf img; on_time := now |} /\
  (forall other, other <> note -> active' !! other = active !! other) /\
  size active' = match active !! note with
                 | Some _ => size active
                 | None => S (size active)
                 end.
Proof.
  intros Hv Hi. cbv zeta.
  rewrite (handle_message_note_on images active note velocity now img Hv Hi).
  split; [apply lookup_insert_eq|]. split.
  - intros other Hne. apply lookup_insert_ne. congruence.
  - destruct (active !! note) as [d|] eqn:Hd.
    + apply map_size_insert_Some. eauto.
    + apply map_size_insert_None, Hd.
Qed.

Lemma note_on_mapped_entry_witness :
  let images : gmap Z (@image_entry nat) :=
    <[60 := {| img_surf := 1%nat; img_path := "c4.png" |}]> ∅ in
  let active : gmap Z (@display_entry nat nat) :=
    <[60 := {| surf := 1%nat; on_time := 5%nat |}]> ∅ in
  let img := {| img_surf := 1%nat; img_path := "c4.png" |} in
  0 < 100 /\ images !! 60 = Some img /\
  let active' := handle_message images active (note_on 60 100) 9%nat in
  active' !! 60 = Some {| surf := img_surf img; on_time := 9%nat |} /\
  (forall other, other <> 60 -> active' !! other = active !! other) /\
  size active' = match active !! 60 with
                 | Some _ => size active
                 | None => S (size active)
                 end.
Proof.
  cbv zeta.
  assert (H60 : (<[60 := {| img_surf := 1%nat; img_path := "c4.png" |}]> ∅
                 : gmap Z (@image_entry nat)) !! 60
                = Some {| img_surf := 1%nat; img_path := "c4.png" |})
    by (vm_compute; reflexivity).
  split; [lia|]. split; [exact H60|].
  apply (note_on_mapped_entry _ _ 60 100 9%nat _); [lia | exact H60].
Defined.

Import NotesSpec.

(** One message, seen from a note with a loaded image. *)
Lemma handle_message_held {Surface Time : Type}
    (images : gmap Z (@image_entry Surface))
    (active : gmap Z (@display_entry Surface Time))
    (msg : message) (now : Time) (note : Z) (img : image_entry) (before : bool) :
  images !! note = Some img ->
  (is_Some (active !! note) <-> before = true) ->
  is_Some (handle_message images active msg now !! note) <->
  held_after note [(msg, now)] before = true.
Proof.
  intros Hi Hb. unfold held_after. cbn [fold_left fst].
  destruct msg as [k v|k v|]; [| |exact Hb].
  - destruct (Z.eqb_spec k note) as [->|Hne].
    + unfold handle_message.
      destruct (Z.gtb_spec v 0) as [Hv|Hv].
      * rewrite Hi, lookup_insert_eq. split; [reflexivity | eauto].
      * destruct (Z.eqb_spec v 0) as [Hz|Hz]; [|exact Hb].
        destruct (active !! note) eqn:Ha.
        -- rewrite lookup_delete_eq. split; [intros [? [=]] | discriminate].
        -- rewrite Ha. split; [intros [? [=]] | discriminate].
    + rewrite handle_message_other_note by exact Hne. exact Hb.
  - destruct (Z.eqb_spec k note) as [->|Hne].
    + rewrite handle_message_note_off, lookup_delete_eq.
      split; [intros [? [=]] | discriminate].
    + rewrite handle_message_other_note by exact Hne. exact Hb.
Qed.

(** X10. For a note with a loaded image, whether it is active after a
    sequence of messages depends only on the messages for that note: it is
    active exactly when the last note-on or note-off for it is a note-on
    with a positive velocity, or, without such a message, when it was active
    before. *)
Theorem active_follows_last_message {Surface Time : Type}
    (images : gmap Z (@image_entry Surface))
    (active : gmap Z (@display_entry Surface Time))
    (pending : list (message * Time)) (note : Z) (img : image_entry)
    (before : bool) :
  images !! note = Some img ->
  (is_Some (active !! note) <-> before = true) ->
  is_Some (handle_pending images active pending !! note) <->
  held_after note pending before = true.
Proof.
  intros Hi. revert active before.
  induction pending as [|[msg now] pending IH]; intros active before Hb.
  - exact Hb.
  - unfold handle_pending, held_after in *. cbn [fold_left fst snd].
    apply IH.
    apply (handle_message_held images active msg now note img before Hi Hb).
Qed.

Lemma active_follows_last_message_witness :
  let images : gmap Z (@image_entry nat) :=
    <[60 := {| img_surf := 1%nat; img_path := "c4.png" |}]> ∅ in
  let pending :=
    [(note_on 60 100, 1%nat); (note_on 64 90, 2%nat); (note_on 60 0, 3%nat);
     (note_on 60 70, 4%nat)] in
  images !! 60 = Some {| img_surf := 1%nat; img_path := "c4.png" |} /\
  (is_Some ((∅ : gmap Z (@display_entry nat nat)) !! 60) <-> false = true) /\
  (is_Some (handle_pending images ∅ pending !! 60) <->
   held_after 60 pending false = true).
Proof.
  cbv zeta.
  assert (H60 : (<[60 := {| img_surf := 1%nat; img_path := "c4.png" |}]> ∅
                 : gmap Z (@image_entry nat)) !! 60
                = Some {| img_surf := 1%nat; img_path := "c4.png" |})
    by (vm_compute; reflexivity).
  assert (Hb : is_Some ((∅ : gmap Z (@display_entry nat nat)) !! 60)
               <-> false = true).
  { rewrite lookup_empty. split; [intros [? [=]] | discriminate]. }
  split; [exact H60|]. split; [exact Hb|].
  apply (active_follows_last_message _ _ _ 60 _ false H60 Hb).
Defined.

(** Ascending without repetition is strictly ascending. *)
Lemma StronglySorted_le_NoDup (l : list Z) :
  StronglySorted Z.le l -> NoDup l -> StronglySorted Z.lt l.
Proof.
  induction 1 as [|x l Hs IH Hall]; intros Hnd; constructor.
  - apply IH. apply NoDup_cons in Hnd as [_ Hnd]. exact Hnd.
  - apply NoDup_cons in Hnd as [Hx _].
    apply Forall_forall. intros y Hy.
    rewrite Forall_forall in Hall.
    assert (x <> y) by (intros ->; contradiction).
    pose proof (Hall y Hy). lia.
Qed.

(** X11. The render order lists every active note exactly once, in
    strictly ascending order: its length is the number of active notes, so
    the ranks of the draw loop are 0 to [n_active - 1]. *)
Theorem sorted_notes_strict {Surface Time : Type}
    (active : gmap Z (@display_entry Surface Time)) :
  StronglySorted Z.lt (sorted_notes active) /\
  NoDup (sorted_notes active) /\
  length (sorted_notes active) = size active /\
  forall note, note ∈ sorted_notes active <-> is_Some (active !! note).
Proof.
  assert (Hnd : NoDup (sorted_notes active)).
  { unfold sorted_notes. rewrite merge_sort_Permutation.
    apply NoDup_fst_map_to_list. }
  split; [|split; [exact Hnd|split]].
  - apply StronglySorted_le_NoDup; [|exact Hnd].
    unfold sorted_notes. apply (StronglySorted_merge_sort Z.le).
  - unfold sorted_notes. rewrite merge_sort_Permutation, length_fmap.
    apply length_map_to_list.
  - apply sorted_notes_spec.
Qed.

(** ** The choice of the input port *)

Section Substrings.

Lemma starts_with_spec (sub s : String.string) :
  starts_with sub s = true <-> exists post, s = (sub ++ post)%string.
Proof.
  revert s. induction sub as [|a sub IH]; intros s; simpl.
  - split; [intros _; exists s; reflexivity | reflexivity].
  - destruct s as [|b s].
    + split; [discriminate | intros [post [=]]].
    + destruct (Ascii.eqb_spec a b) as [->|Hne]; simpl.
      * rewrite IH. split; intros [post H]; exists post.
        -- rewrite H. reflexivity.
        -- simpl in H. injection H as H. exact H.
      * split; [discriminate | intros [post [= ? ?]]; congruence].
Qed.

(** [contains] decides the occurrence of a substring. *)
Lemma contains_spec (sub s : String.string) :
  contains sub s = true <-> occurs_in sub s.
Proof.
  unfold occurs_in. induction s as [|b s IH].
  - unfold contains. rewrite orb_false_r, starts_with_spec. split.
    + intros [post H]. exists EmptyString, post. exact H.
    + intros ([|c pre] & post & H); [|discriminate]. exists post. exact H.
  - cbn [contains]. rewrite orb_true_iff, IH, starts_with_spec. split.
    + intros [[post H]|(pre & post & H)].
      * exists EmptyString, post. exact H.
      * exists (String b pre), post. subst s. reflexivity.
    + intros ([|c pre] & post & H).
      * left. exists post. exact H.
      * right. change (String b s = String c (pre ++ sub ++ post)%string) in H.
        injection H as _ H. exists pre, post. exact H.
Qed.

Lemma append_empty_r (s : String.string) : (s ++ "")%string = s.
Proof.
  induction s as [|c s IH]; [reflexivity|].
  change (String c (s ++ "")%string = String c s). rewrite IH. reflexivity.
Qed.

Lemma port_test_spec (arg p : String.string) :
  (String.eqb arg p || contains arg p) = true <-> occurs_in arg p.
Proof.
  rewrite orb_true_iff, contains_spec. split.
  - intros [H|H]; [|exact H]. apply String.eqb_eq in H as ->.
    exists EmptyString, EmptyString.
    change (p = (p ++ "")%string). symmetry. apply append_empty_r.
  - auto.
Qed.

(** [find] returns the first element that passes the test. *)
Lemma find_first {T : Type} (f : T -> bool) (l : list T) (x : T) :
  List.find f l = Some x <->
  exists l1 l2, l = l1 ++ x :: l2 /\ f x = true /\
                forall y, In y l1 -> f y = false.
Proof.
  induction l as [|a l IH]; simpl.
  - split; [discriminate | intros ([|? ?] & ? & [=] & _)].
  - destruct (f a) eqn:Hfa.
    + split.
      * intros [= <-]. exists [], l.
        split; [reflexivity|]. split; [exact Hfa|]. intros y [].
      * intros ([|b l1] & l2 & Hl & Hx & Hno).
        -- simpl in Hl. congruence.
        -- simpl in Hl. injection Hl as <- _.
           rewrite (Hno a (or_introl eq_refl)) in Hfa. discriminate.
    + rewrite IH. split.
      * intros (l1 & l2 & -> & Hx & Hno). exists (a :: l1), l2.
        split; [reflexivity|]. split; [exact Hx|].
        intros y [<-|Hy]; auto.
      * intros ([|b l1] & l2 & Hl & Hx & Hno).
        -- simpl in Hl. injection Hl as -> _. congruence.
        -- simpl in Hl. injection Hl as <- ->. exists l1, l2.
           split; [reflexivity|]. split; [exact Hx|].
           intros y Hy. apply Hno. right. exact Hy.
Qed.

End Substrings.

(** X12. With a name that is not empty, [choose_midi_port] returns the
    first port, in the order of the list, in which the name occurs: the name
    occurs in the port that is returned and in none of the ports before
    it. *)
Theorem choose_midi_port_first_match
    (ports : list String.string) (arg p : String.string) :
  arg <> EmptyString ->
  choose_midi_port ports (Some arg) = Port p <->
  exists before after,
    ports = before ++ p :: after /\ occurs_in arg p /\
    forall q, In q before -> ~ occurs_in arg q.
Proof.
  intros Harg. unfold choose_midi_port.
  destruct (String.eqb_spec arg EmptyString) as [|_]; [contradiction|].
  set (test := fun q => (String.eqb arg q || contains arg q)%bool).
  assert (Hfind : List.find test ports = Some p <->
                  exists before after,
                    ports = before ++ p :: after /\ occurs_in arg p /\
                    forall q, In q before -> ~ occurs_in arg q).
  { rewrite find_first. split.
    - intros (l1 & l2 & Hl & Hp & Hno). exists l1, l2.
      split; [exact Hl|]. split; [apply port_test_spec, Hp|].
      intros q Hq Hocc. apply port_test_spec in Hocc.
      unfold test in Hno. rewrite (Hno q Hq) in Hocc. discriminate.
    - intros (l1 & l2 & Hl & Hp & Hno). exists l1, l2.
      split; [exact Hl|]. split; [apply port_test_spec, Hp|].
      intros q Hq. destruct (test q) eqn:Hq'; [|reflexivity].
      exfalso. apply (Hno q Hq), port_test_spec, Hq'. }
  destruct ports as [|first rest].
  - split; [discriminate|]. intros ([|? ?] & ? & [=] & _).
  - rewrite <- Hfind. destruct (List.find test (first :: rest)).
    + split; congruence.
    + split; discriminate.
Qed.

Lemma choose_midi_port_first_match_witness :
  "USB"%string <> EmptyString /\
  (choose_midi_port ["Midi Through"; "USB Keys"; "USB Pad"]%string
     (Some "USB"%string) = Port "USB Keys"%string <->
   exists before after,
     ["Midi Through"; "USB Keys"; "USB Pad"]%string
     = before ++ "USB Keys"%string :: after /\
     occurs_in "USB" "USB Keys" /\
     forall q, In q before -> ~ occurs_in "USB" q).
Proof.
  assert (H : "USB"%string <> EmptyString) by discriminate.
  split; [exact H|].
  apply (choose_midi_port_first_match
           ["Midi Through"; "USB Keys"; "USB Pad"]%string "USB" "USB Keys" H).
Defined.

(** X13. [choose_midi_port] only ever exits with status 1, and it does so
    in two cases only: there is no port at all, or a name that is not empty
    was given and it occurs in none of the ports.  A port that is returned
    is one of the ports of the list. *)
Theorem choose_midi_port_exit
    (ports : list String.string) (port_arg : option String.string) :
  (forall status,
     choose_midi_port ports port_arg = SystemExit status <->
     status = 1 /\
     (ports = [] \/
      exists arg, port_arg = Some arg /\ arg <> EmptyString /\
                  forall q, In q ports -> ~ occurs_in arg q)) /\
  (forall p, choose_midi_port ports port_arg = Port p -> In p ports).
Proof.
  unfold choose_midi_port. destruct ports as [|first rest].
  - split.
    + intros status. split; [intros [= <-]; auto | intros [-> _]; reflexivity].
    + discriminate.
  - destruct port_arg as [arg|].
    + destruct (String.eqb_spec arg EmptyString) as [->|Harg].
      * split.
        -- intros status. split; [discriminate|].
           intros [_ [[=]|(a & [= <-] & Ha & _)]]. contradiction.
        -- intros p [= <-]. left. reflexivity.
      * set (test := fun q => (String.eqb arg q || contains arg q)%bool).
        destruct (List.find test (first :: rest)) as [p|] eqn:Hf.
        -- apply find_some in Hf as [Hin Hp]. split.
           ++ intros status. split; [discriminate|].
              intros [_ [[=]|(a & [= <-] & _ & Hno)]].
              exfalso. apply (Hno p Hin), port_test_spec, Hp.
           ++ intros q [= <-]. exact Hin.
        -- split; [|discriminate].
           intros status. split.
           ++ intros [= <-]. split; [reflexivity|]. right.
              exists arg. split; [reflexivity|]. split; [exact Harg|].
              intros q Hq Hocc. apply port_test_spec in Hocc.
              pose proof (find_none _ _ Hf q Hq) as Hn.
              unfold test in Hn. rewrite Hn in Hocc. discriminate.
           ++ intros [-> _]. reflexivity.
    + split.
      * intros status. split; [discriminate|].
        intros [_ [[=]|(a & [=] & _)]].
      * intros p [= <-]. left. reflexivity.
Qed.

(** ** Reshaping a flat sequence *)

Section Reshape.

Context {A : Type}.
Implicit Types (l : list A).

Lemma length_pieces (count n : nat) l : length (pieces count n l) = count.
Proof.
  revert l. induction count as [|count IH]; intros l; simpl; [reflexivity|].
  rewrite IH. reflexivity.
Qed.

Lemma pieces_uniform (count n : nat) l :
  length l = (count * n)%nat ->
  Forall (fun p => length p = n) (pieces count n l) /\
  concat (pieces count n l) = l.
Proof.
  revert l. induction count as [|count IH]; intros l Hl; simpl.
  - split; [constructor|]. symmetry. apply length_zero_iff_nil. exact Hl.
  - simpl in Hl. destruct (IH (skipn n l)) as [Hall Hcat].
    { rewrite length_skipn. lia. }
    split.
    + constructor; [|exact Hall]. rewrite length_firstn. lia.
    + rewrite Hcat. apply firstn_skipn.
Qed.

Lemma reshape_ok (flat : list A) (h w c : nat) :
  length flat = (h * w * c)%nat ->
  exists a,
    reshape flat (h, w, c) = Ok a /\ shape a = (h, w, c) /\
    well_shaped a /\ flatten a = flat.
Proof.
  intros Hlen. unfold reshape.
  rewrite Hlen, Nat.eqb_refl. eexists. split; [reflexivity|].
  split; [reflexivity|].
  destruct (pieces_uniform h (w * c) flat) as [Hrows Hcat]; [lia|].
  unfold well_shaped, flatten. simpl. split; [split|].
  - rewrite length_map. apply length_pieces.
  - apply Forall_map. eapply Forall_impl; [exact Hrows|].
    intros row Hrow. simpl.
    destruct (pieces_uniform w c row Hrow) as [Hpx _].
    split; [apply length_pieces | exact Hpx].
  - rewrite map_map. rewrite <- Hcat at 2. f_equal.
    rewrite <- (map_id (pieces h (w * c) flat)) at 2.
    apply map_ext_Forall. eapply Forall_impl; [exact Hrows|].
    intros row Hrow. simpl.
    destruct (pieces_uniform w c row Hrow) as [_ Hc]. exact Hc.
Qed.

End Reshape.

(** X14. Reshaping a flat sequence to [(h, w, c)] succeeds exactly when its
    length is [h * w * c], and raises [ValueError] otherwise; the array it
    returns has that shape, is well shaped, and flattens back to the
    sequence. *)
Theorem reshape_flatten {A : Type} (flat : list A) (h w c : nat) :
  (length flat = (h * w * c)%nat ->
   exists a,
     reshape flat (h, w, c) = Ok a /\ shape a = (h, w, c) /\
     well_shaped a /\ flatten a = flat) /\
  (length flat <> (h * w * c)%nat ->
   reshape flat (h, w, c) = Raise ValueError).
Proof.
  split; [apply reshape_ok|].
  intros Hne. unfold reshape.
  destruct (Nat.eqb_spec (length flat) (h * w * c)); [contradiction|].
  reflexivity.
Qed.

(** ** The whole pipeline *)

Section Pipeline.

(** The normalised signal of a non-empty frame of bytes. *)
Lemma normalize_bytes_eq (x : Z) (rest : list Z) :
  Forall is_uint8 (x :: rest) ->
  let lo := sample_min x rest in
  let hi := sample_max x rest in
  is_uint8 lo /\ is_uint8 hi /\
  (forall s, In s (x :: rest) -> is_uint8 s /\ lo <= s <= hi) /\
  normalize (map f32_of_Z (x :: rest))
  = Ok (if hi =? lo then map (fun _ => f32_zero) (x :: rest)
        else map (normalized_sample lo hi) (x :: rest)).
Proof.
  intros Hall lo hi.
  destruct (sample_min_spec x rest Hall) as (Hlo & Hmin & Emin).
  destruct (sample_max_spec x rest Hall) as (Hhi & Hmax & Emax).
  fold lo in Hlo, Hmin, Emin. fold hi in Hhi, Hmax, Emax.
  assert (Hbounds : forall s, In s (x :: rest) -> is_uint8 s /\ lo <= s <= hi).
  { intros s Hs. rewrite List.Forall_forall in Hall, Hmin, Hmax. auto. }
  split; [exact Hlo|]. split; [exact Hhi|]. split; [exact Hbounds|].
  unfold normalize.
  change (array_min (map f32_of_Z (x :: rest)))
    with (Ok (fold_left np_minimum (map f32_of_Z rest) (f32_of_Z x))).
  change (array_max (map f32_of_Z (x :: rest)))
    with (Ok (fold_left np_maximum (map f32_of_Z rest) (f32_of_Z x))).
  rewrite Emin, Emax. cbn [bind].
  rewrite (f_eqb_bytes hi lo Hhi Hlo).
  destruct (hi =? lo); f_equal.
  - apply map_map.
  - rewrite !map_map. apply map_ext_in. intros s Hs.
    destruct (Hbounds s Hs) as [Hs8 Hsb].
    apply normalize_steps; assumption.
Qed.

(** The normalised signal holds no NaN. *)
Lemma normalized_signal_not_nan (x : Z) (rest : list Z) :
  Forall is_uint8 (x :: rest) ->
  let lo := sample_min x rest in
  let hi := sample_max x rest in
  Forall (fun s => s <> S754_nan)
    (if hi =? lo then map (fun _ => f32_zero) (x :: rest)
     else map (normalized_sample lo hi) (x :: rest)).
Proof.
  intros Hall lo hi.
  destruct (normalize_bytes_eq x rest Hall) as (Hlo & Hhi & Hb & _).
  fold lo hi in Hlo, Hhi, Hb.
  destruct (Z.eqb_spec hi lo) as [Heq|Hne]; apply Forall_map, List.Forall_forall.
  - intros s _. discriminate.
  - intros s Hs. destruct (Hb s Hs) as [_ Hsb].
    destruct (normalized_sample_bounds lo hi s Hlo Hhi Hsb ltac:(lia))
      as (Hfin & _).
    intros Hnan. rewrite Hnan in Hfin. discriminate.
Qed.

(** The denormalisation of a signal without NaN. *)
Lemma denormalize_all (signal : list spec_float) :
  Forall (fun s => s <> S754_nan) signal ->
  map_result denormalize_sample signal = Ok (map denormalize_truncated signal).
Proof.
  induction 1 as [|s signal Hs _ IH]; [reflexivity|].
  cbn [map_result map]. rewrite IH.
  unfold denormalize_sample at 1. cbv zeta.
  rewrite (astype_clip_value _ (scaled_sample_not_nan s Hs)). reflexivity.
Qed.

Lemma denormalize_truncated_uint8 (s : spec_float) :
  is_uint8 (denormalize_truncated s).
Proof.
  unfold denormalize_truncated, is_uint8.
  pose proof (clip_value_range (scaled_sample s)) as [H0 H255]. split.
  - change 0 with (Qfloor 0). apply Qfloor_resp_le, H0.
  - change 255 with (Qfloor 255). apply Qfloor_resp_le, H255.
Qed.

(** The only error of the denormalisation is the undefined conversion. *)
Lemma map_result_denormalize_error (signal : list spec_float) (e : exn) :
  map_result denormalize_sample signal = Raise e -> e = UndefinedCast.
Proof.
  induction signal as [|s signal IH]; [discriminate|].
  cbn [map_result].
  destruct (denormalize_sample s) as [b|e'] eqn:Hs; simpl.
  - destruct (map_result denormalize_sample signal) as [bs|e'']; simpl;
      [discriminate|].
    intros [= <-]. apply IH. reflexivity.
  - intros [= <-]. unfold denormalize_sample, astype_uint8 in Hs.
    cbv zeta in Hs.
    destruct (np_minimum _ _) as [?|?| |? m e]; try congruence.
    destruct (_ && _); congruence.
Qed.

End Pipeline.

(** X15. On a well-shaped, non-empty frame of bytes and with a board in
    place, the normalisation succeeds and gives a signal of the length of
    the frame.  If the board returns a signal of that length without NaN,
    [process_image_array] returns a frame of the shape of the input whose
    samples are bytes, together with the board as the call left it; if the
    board returns a signal of another length without NaN, it raises
    [ValueError]. *)
Theorem process_image_array_returns {Board : Type}
    (board_call : Board -> list spec_float -> Z -> list spec_float * Board)
    (board : Board) (image_array : ndarray3 Z) (x : Z) (rest : list Z)
    (frame_no total_frames : Z) :
  well_shaped image_array -> flatten image_array = x :: rest ->
  Forall is_uint8 (x :: rest) ->
  exists signal,
    normalize (map f32_of_Z (flatten image_array)) = Ok signal /\
    length signal = length (flatten image_array) /\
    forall out board',
      board_call board signal SAMPLE_RATE = (out, board') ->
      Forall (fun s => s <> S754_nan) out ->
      (length out = length signal ->
       exists img,
         process_image_array board_call (Some board) image_array frame_no
           total_frames = Ok (img, Some board') /\
         shape img = shape image_array /\ well_shaped img /\
         flatten img = map denormalize_truncated out /\
         Forall is_uint8 (flatten img)) /\
      (length out <> length signal ->
       process_image_array board_call (Some board) image_array frame_no
         total_frames = Raise ValueError).
Proof.
  intros Hwf Hflat Hbytes.
  destruct (normalize_bytes_eq x rest Hbytes) as (_ & _ & _ & Hnorm).
  cbv zeta in Hnorm. rewrite <- Hflat in Hnorm at 1.
  eexists. split; [exact Hnorm|].
  assert (Hlen : length (if sample_max x rest =? sample_min x rest
                         then map (fun _ => f32_zero) (x :: rest)
                         else map (normalized_sample (sample_min x rest)
                                     (sample_max x rest)) (x :: rest))
                 = length (flatten image_array)).
  { rewrite Hflat. destruct (_ =? _); apply length_map. }
  split; [exact Hlen|].
  intros out board' Hcall Hnan.
  destruct image_array as [[[h w] c] rows].
  pose proof (length_flatten (Build_ndarray3 (h, w, c) rows) h w c eq_refl Hwf)
    as Hsize.
  unfold process_image_array. rewrite Hnorm. cbn [bind].
  unfold effect. rewrite Hcall. cbn [bind].
  rewrite (denormalize_all out Hnan). cbn [bind shape].
  split.
  - intros Hout.
    destruct (reshape_ok (map denormalize_truncated out) h w c)
      as (img & Hre & Hsh & Hwf' & Hfl).
    { rewrite length_map, Hout, Hlen. exact Hsize. }
    rewrite Hre. cbn [bind]. exists img.
    split; [reflexivity|]. split; [exact Hsh|]. split; [exact Hwf'|].
    split; [exact Hfl|]. rewrite Hfl.
    apply Forall_map, List.Forall_forall. intros s _.
    apply denormalize_truncated_uint8.
  - intros Hout. unfold reshape.
    destruct (Nat.eqb_spec (length (map denormalize_truncated out)) (h * w * c))
      as [Heq|_]; [|reflexivity].
    exfalso. apply Hout. rewrite length_map in Heq. rewrite Heq, Hlen.
    symmetry. exact Hsize.
Qed.

Lemma process_image_array_returns_witness :
  let a := Build_ndarray3 (1, 1, 3)%nat [[[0; 128; 255]]] in
  well_shaped a /\ flatten a = [0; 128; 255] /\
  Forall is_uint8 [0; 128; 255] /\
  exists signal,
    normalize (map f32_of_Z (flatten a)) = Ok signal /\
    length signal = length (flatten a) /\
    forall out board',
      no_effects tt signal SAMPLE_RATE = (out, board') ->
      Forall (fun s => s <> S754_nan) out ->
      (length out = length signal ->
       exists img,
         process_image_array no_effects (Some tt) a 0 1 = Ok (img, Some board') /\
         shape img = shape a /\ well_shaped img /\
         flatten img = map denormalize_truncated out /\
         Forall is_uint8 (flatten img)) /\
      (length out <> length signal ->
       process_image_array no_effects (Some tt) a 0 1 = Raise ValueError).
Proof.
  cbv zeta.
  assert (Hwf : well_shaped (Build_ndarray3 (1, 1, 3)%nat [[[0; 128; 255]]])).
  { unfold well_shaped. simpl. repeat constructor. }
  assert (Hb : Forall is_uint8 [0; 128; 255])
    by (repeat constructor; unfold is_uint8; lia).
  split; [exact Hwf|]. split; [reflexivity|]. split; [exact Hb|].
  apply (process_image_array_returns no_effects tt _ 0 [128; 255] 0 1
           Hwf eq_refl Hb).
Defined.

(** X16. Without a board, [process_image_array] raises [TypeError] on every
    well-shaped, non-empty frame of bytes.  [init_worker] builds a board only
    when there is none and keeps the one in place otherwise; after it,
    [process_image_array] does not raise [TypeError], whatever the frame and
    whatever the board returns. *)
Theorem board_required {Board : Type}
    (board_call : Board -> list spec_float -> Z -> list spec_float * Board)
    (new_board : Board) (image_array : ndarray3 Z) (x : Z) (rest : list Z)
    (frame_no total_frames : Z) :
  well_shaped image_array -> flatten image_array = x :: rest ->
  Forall is_uint8 (x :: rest) ->
  process_image_array board_call None image_array frame_no total_frames
  = Raise TypeError /\
  init_worker new_board None = Some new_board /\
  (forall board, init_worker new_board (Some board) = Some board) /\
  (forall GLOBAL_BOARD (any_array : ndarray3 Z),
     process_image_array board_call (init_worker new_board GLOBAL_BOARD)
       any_array frame_no total_frames <> Raise TypeError).
Proof.
  intros Hwf Hflat Hbytes.
  split; [|split; [reflexivity|split; [reflexivity|]]].
  - destruct (normalize_bytes_eq x rest Hbytes) as (_ & _ & _ & Hnorm).
    cbv zeta in Hnorm. rewrite <- Hflat in Hnorm at 1.
    unfold process_image_array. rewrite Hnorm. reflexivity.
  - intros g a.
    assert (Hsome : exists b, init_worker new_board g = Some b)
      by (destruct g; simpl; eauto).
    destruct Hsome as [b ->].
    unfold process_image_array.
    destruct (normalize (map f32_of_Z (flatten a))) as [signal|e] eqn:Hn.
    + cbn [bind]. unfold effect.
      destruct (board_call b signal SAMPLE_RATE) as [out b']. cbn [bind].
      destruct (map_result denormalize_sample out) as [bs|e] eqn:Hd.
      * cbn [bind]. unfold reshape. destruct (shape a) as [[h w] c].
        destruct (Nat.eqb _ _); cbn [bind]; discriminate.
      * cbn [bind]. apply map_result_denormalize_error in Hd as ->.
        discriminate.
    + cbn [bind]. unfold normalize in Hn.
      destruct (map f32_of_Z (flatten a)) as [|s l]; simpl in Hn.
      * injection Hn as <-. discriminate.
      * destruct (f_eqb _ _); discriminate.
Qed.

Lemma board_required_witness :
  let a := Build_ndarray3 (1, 1, 3)%nat [[[0; 128; 255]]] in
  well_shaped a /\ flatten a = [0; 128; 255] /\
  Forall is_uint8 [0; 128; 255] /\
  process_image_array no_effects None a 0 1 = Raise TypeError /\
  init_worker tt None = Some tt /\
  (forall board, init_worker tt (Some board) = Some board) /\
  (forall GLOBAL_BOARD (any_array : ndarray3 Z),
     process_image_array no_effects (init_worker tt GLOBAL_BOARD)
       any_array 0 1 <> Raise TypeError).
Proof.
  cbv zeta.
  assert (Hwf : well_shaped (Build_ndarray3 (1, 1, 3)%nat [[[0; 128; 255]]])).
  { unfold well_shaped. simpl. repeat constructor. }
  assert (Hb : Forall is_uint8 [0; 128; 255])
    by (repeat constructor; unfold is_uint8; lia).
  split; [exact Hwf|]. split; [reflexivity|]. split; [exact Hb|].
  apply (board_required no_effects tt _ 0 [128; 255] 0 1 Hwf eq_refl Hb).
Defined.

(** X17. With a board without effect units, [process_image_array] returns,
    for every well-shaped, non-empty frame of bytes, a frame of the same
    shape in which every sample [s] is replaced by [stretched lo hi s],
    where [lo] and [hi] are the least and the greatest sample of the whole
    frame. *)
Theorem process_image_array_no_effects
    (image_array : ndarray3 Z) (x : Z) (rest : list Z)
    (frame_no total_frames : Z) :
  well_shaped image_array -> flatten image_array = x :: rest ->
  Forall is_uint8 (x :: rest) ->
  exists img,
    process_image_array no_effects (Some tt) image_array frame_no total_frames
    = Ok (img, Some tt) /\
    shape img = shape image_array /\ well_shaped img /\
    flatten img
    = map (stretched (sample_min x rest) (sample_max x rest))
        (flatten image_array).
Proof.
  intros Hwf Hflat Hbytes.
  destruct (normalize_bytes_eq x rest Hbytes) as (_ & _ & _ & Hnorm).
  pose proof (normalized_signal_not_nan x rest Hbytes) as Hnan.
  cbv zeta in Hnorm, Hnan. rewrite <- Hflat in Hnorm at 1.
  destruct image_array as [[[h w] c] rows].
  pose proof (length_flatten (Build_ndarray3 (h, w, c) rows) h w c eq_refl Hwf)
    as Hsize.
  unfold process_image_array. rewrite Hnorm. cbn [bind].
  unfold effect, no_effects. cbn [bind].
  rewrite (denormalize_all _ Hnan). cbn [bind shape].
  set (out := map denormalize_truncated _).
  assert (Hout : out = map (stretched (sample_min x rest) (sample_max x rest))
                         (x :: rest)).
  { unfold out, stretched. destruct (_ =? _); rewrite map_map; reflexivity. }
  destruct (reshape_ok out h w c) as (img & Hre & Hsh & Hwf' & Hfl).
  { rewrite Hout, length_map, <- Hflat. exact Hsize. }
  rewrite Hre. cbn [bind]. exists img.
  split; [reflexivity|]. split; [exact Hsh|]. split; [exact Hwf'|].
  rewrite Hfl, Hout, Hflat. reflexivity.
Qed.

Lemma process_image_array_no_effects_witness :
  let a := Build_ndarray3 (1, 1, 3)%nat [[[0; 128; 255]]] in
  well_shaped a /\ flatten a = [0; 128; 255] /\
  Forall is_uint8 [0; 128; 255] /\
  exists img,
    process_image_array no_effects (Some tt) a 0 1 = Ok (img, Some tt) /\
    shape img = shape a /\ well_shaped img /\
    flatten img
    = map (stretched (sample_min 0 [128; 255]) (sample_max 0 [128; 255]))
        (flatten a).
Proof.
  cbv zeta.
  assert (Hwf : well_shaped (Build_ndarray3 (1, 1, 3)%nat [[[0; 128; 255]]])).
  { unfold well_shaped. simpl. repeat constructor. }
  assert (Hb : Forall is_uint8 [0; 128; 255])
    by (repeat constructor; unfold is_uint8; lia).
  split; [exact Hwf|]. split; [reflexivity|]. split; [exact Hb|].
  apply (process_image_array_no_effects _ 0 [128; 255] 0 1 Hwf eq_refl Hb).
Defined.

Lemma all_stretched_checked :
  forallb (fun d => forallb (stretched_check d) bytes) bytes = true.
Proof. vm_compute. reflexivity. Qed.

Lemma stretched_bounds (lo hi x : Z) :
  is_uint8 lo -> is_uint8 hi -> lo < hi -> lo <= x <= hi ->
  255 * (x - lo) / (hi - lo) - 1 <= stretched lo hi x
  <= 255 * (x - lo) / (hi - lo) /\
  (x = hi -> stretched lo hi x = 255).
Proof.
  intros Hlo Hhi Hlt Hx.
  assert (Hd : is_uint8 (hi - lo)) by (unfold is_uint8 in *; lia).
  assert (Hk : is_uint8 (x - lo)) by (unfold is_uint8 in *; lia).
  pose proof (forall_bytes2 _ all_stretched_checked _ _ Hd Hk) as H.
  unfold stretched_check in H.
  destruct (Z.leb_spec 1 (hi - lo)) as [_|?]; [|lia].
  destruct (Z.leb_spec (x - lo) (hi - lo)) as [_|?]; [|lia].
  cbv zeta in H. simpl andb in H.
  unfold stretched. destruct (Z.eqb_spec hi lo) as [?|_]; [lia|].
  unfold normalized_sample in *. rewrite !Z.sub_0_r in H.
  apply andb_prop in H as [H H3]. apply andb_prop in H as [H1 H2].
  apply Z.leb_le in H1, H2. split; [lia|].
  intros ->. rewrite Z.eqb_refl in H3. apply Z.eqb_eq in H3. exact H3.
Qed.

(** X18. The bytes that come out of the pipeline when the signal is not
    altered: a flat frame gives 127 whatever its colour; otherwise the least
    sample gives 0, the greatest gives 255, a sample [x] gives the floor of
    [255 * (x - lo) / (hi - lo)] or one less, and a larger sample never gives
    a smaller byte. *)
Theorem stretched_spec (lo hi x y : Z) :
  is_uint8 lo -> is_uint8 hi -> lo <= x <= y -> y <= hi ->
  (lo = hi -> stretched lo hi x = 127) /\
  (lo < hi ->
   stretched lo hi lo = 0 /\ stretched lo hi hi = 255 /\
   255 * (x - lo) / (hi - lo) - 1 <= stretched lo hi x
   <= 255 * (x - lo) / (hi - lo) /\
   stretched lo hi x <= stretched lo hi y).
Proof.
  intros Hlo Hhi Hxy Hy. split.
  - intros ->. unfold stretched. rewrite Z.eqb_refl. reflexivity.
  - intros Hlt.
    destruct (stretched_bounds lo hi lo Hlo Hhi Hlt ltac:(lia)) as [Hb0 _].
    destruct (stretched_bounds lo hi hi Hlo Hhi Hlt ltac:(lia)) as [_ Hb1].
    destruct (stretched_bounds lo hi x Hlo Hhi Hlt ltac:(lia)) as [Hbx _].
    destruct (stretched_bounds lo hi y Hlo Hhi Hlt ltac:(lia)) as [Hby _].
    assert (H0 : 0 <= stretched lo hi lo).
    { unfold stretched. destruct (hi =? lo); apply denormalize_truncated_uint8. }
    rewrite Z.sub_diag, Z.mul_0_r, Z.div_0_l in Hb0 by lia.
    split; [lia|]. split; [apply Hb1; reflexivity|]. split; [exact Hbx|].
    destruct (Z.eq_dec x y) as [->|Hne]; [lia|].
    assert (Hstep : 255 * (x - lo) / (hi - lo) + 1 <= 255 * (y - lo) / (hi - lo)).
    { apply Z.div_le_lower_bound; [lia|].
      pose proof (Z.mul_div_le (255 * (x - lo)) (hi - lo) ltac:(lia)).
      unfold is_uint8 in *. nia. }
    lia.
Qed.

Lemma stretched_spec_witness :
  is_uint8 10 /\ is_uint8 200 /\ 10 <= 50 <= 120 /\ 120 <= 200 /\
  (10 = 200 -> stretched 10 200 50 = 127) /\
  (10 < 200 ->
   stretched 10 200 10 = 0 /\ stretched 10 200 200 = 255 /\
   255 * (50 - 10) / (200 - 10) - 1 <= stretched 10 200 50
   <= 255 * (50 - 10) / (200 - 10) /\
   stretched 10 200 50 <= stretched 10 200 120).
Proof.
  assert (H10 : is_uint8 10) by (unfold is_uint8; lia).
  assert (H200 : is_uint8 200) by (unfold is_uint8; lia).
  split; [exact H10|]. split; [exact H200|]. split; [lia|]. split; [lia|].
  apply (stretched_spec 10 200 50 120 H10 H200); lia.
Defined.

(** ** The configuration *)

Section Config.

Implicit Types (parsed cfg : gmap String.string json).

Lemma lookup_setdefault (key key' : String.string) (d : json) cfg :
  setdefault key d cfg !! key'
  = if decide (key = key')
    then Some (match cfg !! key with Some v => v | None => d end)
    else cfg !! key'.
Proof.
  unfold setdefault. destruct (cfg !! key) as [v|] eqn:Hk.
  - case_decide as Hd; [subst; exact Hk | reflexivity].
  - case_decide as Hd; [subst; apply lookup_insert_eq |].
    apply lookup_insert_ne. exact Hd.
Qed.

(** What [load_config] holds under a key. *)
Lemma lookup_load_config parsed (key : String.string) :
  load_config parsed !! key
  = match parsed !! key with
    | Some v => Some v
    | None =>
        if decide (key = "image_folder") then Some (JString "images")
        else if decide (key = "window") then Some default_window
        else if decide (key = "scale_mode") then Some (JString "fit")
        else if decide (key = "notes") then Some (JObject ∅)
        else None
    end.
Proof.
  unfold load_config. rewrite !lookup_setdefault.
  repeat case_decide; subst; try discriminate;
    rewrite ?lookup_setdefault; repeat case_decide; try congruence;
    destruct (parsed !! _); reflexivity.
Qed.

End Config.

(** X19. [load_config] never replaces a value of the file by a default: a
    key of the file keeps its value.  The four keys with a default are
    always present afterwards, every other key is present only if the file
    has it, and applying the defaults twice changes nothing more. *)
Theorem load_config_defaults (parsed : gmap String.string json) :
  (forall key v, parsed !! key = Some v -> load_config parsed !! key = Some v) /\
  (parsed !! "image_folder" = None ->
   load_config parsed !! "image_folder" = Some (JString "images")) /\
  (parsed !! "window" = None ->
   load_config parsed !! "window" = Some default_window) /\
  (parsed !! "scale_mode" = None ->
   load_config parsed !! "scale_mode" = Some (JString "fit")) /\
  (parsed !! "notes" = None ->
   load_config parsed !! "notes" = Some (JObject ∅)) /\
  (forall key,
     key <> "image_folder" -> key <> "window" -> key <> "scale_mode" ->
     key <> "notes" -> load_config parsed !! key = parsed !! key) /\
  load_config (load_config parsed) = load_config parsed.
Proof.
  split; [|split; [|split; [|split; [|split; [|split]]]]].
  - intros key v Hk. rewrite lookup_load_config, Hk. reflexivity.
  - intros Hk. rewrite lookup_load_config, Hk. reflexivity.
  - intros Hk. rewrite lookup_load_config, Hk. reflexivity.
  - intros Hk. rewrite lookup_load_config, Hk. reflexivity.
  - intros Hk. rewrite lookup_load_config, Hk. reflexivity.
  - intros key H1 H2 H3 H4. rewrite lookup_load_config.
    destruct (parsed !! key); [reflexivity|].
    repeat case_decide; congruence.
  - apply map_eq. intros key. rewrite (lookup_load_config (load_config parsed)).
    destruct (load_config parsed !! key) as [v|] eqn:Hk; [reflexivity|].
    rewrite lookup_load_config in Hk.
    destruct (parsed !! key); [discriminate|].
    repeat case_decide; congruence.
Qed.

(** X20. The settings that [main] reads after [load_config].  Without a
    ["window"] key in the file the window is 800 by 600; with a ["window"]
    object that lacks ["width"] or ["height"], the missing one is 1280 or
    720.  Without a ["grid"] key, or for the keys that a ["grid"] object
    lacks, the padding is 8, the cell margin 8 and the minimal cell size
    24. *)
Theorem read_settings_defaults (parsed : gmap String.string json)
    (s : raw_settings) :
  read_settings (load_config parsed) = Some s ->
  (parsed !! "window" = None ->
   raw_win_w s = JInt 800 /\ raw_win_h s = JInt 600) /\
  (forall fields, parsed !! "window" = Some (JObject fields) ->
     raw_win_w s = match fields !! "width" with Some v => v | None => JInt 1280 end /\
     raw_win_h s = match fields !! "height" with Some v => v | None => JInt 720 end) /\
  (parsed !! "grid" = None ->
   raw_grid_padding s = JInt 8 /\ raw_cell_margin s = JInt 8 /\
   raw_min_cell_size s = JInt 24) /\
  (forall fields, parsed !! "grid" = Some (JObject fields) ->
     raw_grid_padding s
     = match fields !! "padding" with Some v => v | None => JInt 8 end /\
     raw_cell_margin s
     = match fields !! "cell_margin" with Some v => v | None => JInt 8 end /\
     raw_min_cell_size s
     = match fields !! "min_cell_size" with Some v => v | None => JInt 24 end).
Proof.
  intros Hs. unfold read_settings in Hs. rewrite !lookup_load_config in Hs.
  repeat case_decide; try congruence.
  destruct (parsed !! "window") as [window|] eqn:Hw;
    destruct (parsed !! "grid") as [grid|] eqn:Hg;
    try (destruct window; try discriminate Hs);
    try (destruct grid; try discriminate Hs);
    cbn [get_or default_window] in Hs; injection Hs as <-; cbn;
    (split; [|split; [|split]]);
    try discriminate; try (intros ? [= <-]); auto.
Qed.

Lemma read_settings_defaults_witness :
  let parsed : gmap String.string json :=
    <["window" := JObject (<["width" := JInt 640]> ∅)]> ∅ in
  let s := {| raw_win_w := JInt 640; raw_win_h := JInt 720;
              raw_grid_padding := JInt 8; raw_cell_margin := JInt 8;
              raw_min_cell_size := JInt 24 |} in
  read_settings (load_config parsed) = Some s /\
  (parsed !! "window" = None ->
   raw_win_w s = JInt 800 /\ raw_win_h s = JInt 600) /\
  (forall fields, parsed !! "window" = Some (JObject fields) ->
     raw_win_w s = match fields !! "width" with Some v => v | None => JInt 1280 end /\
     raw_win_h s = match fields !! "height" with Some v => v | None => JInt 720 end) /\
  (parsed !! "grid" = None ->
   raw_grid_padding s = JInt 8 /\ raw_cell_margin s = JInt 8 /\
   raw_min_cell_size s = JInt 24) /\
  (forall fields, parsed !! "grid" = Some (JObject fields) ->
     raw_grid_padding s
     = match fields !! "padding" with Some v => v | None => JInt 8 end /\
     raw_cell_margin s
     = match fields !! "cell_margin" with Some v => v | None => JInt 8 end /\
     raw_min_cell_size s
     = match fields !! "min_cell_size" with Some v => v | None => JInt 24 end).
Proof.
  cbv zeta.
  assert (H : read_settings
                (load_config (<["window" := JObject (<["width" := JInt 640]> ∅)]> ∅))
              = Some {| raw_win_w := JInt 640; raw_win_h := JInt 720;
                        raw_grid_padding := JInt 8; raw_cell_margin := JInt 8;
                        raw_min_cell_size := JInt 24 |})
    by (vm_compute; reflexivity).
  split; [exact H | apply (read_settings_defaults _ _ H)].
Defined.

(** ** The images *)

Section LoadImagesFacts.

Context {Surface : Type}.
Variable path_join : String.string -> String.string -> String.string.
Variable isfile : String.string -> bool.
Variable image_load : String.string -> option Surface.
Variable int_of_str : String.string -> result Z.
Variable image_folder : String.string.

Local Abbreviation loop :=
  (load_images_from path_join isfile image_load int_of_str image_folder).

Local Abbreviation item_loads :=
  (item_loads path_join isfile image_load int_of_str image_folder).

Lemma load_images_from_entries items :
  forall loaded0 missing0 loaded missing,
    loop items loaded0 missing0 = Ok (loaded, missing) ->
    (forall k e, loaded !! k = Some e ->
       loaded0 !! k = Some e \/ exists item, In item items /\ item_loads item k e) /\
    (forall k, is_Some (loaded0 !! k) -> is_Some (loaded !! k)) /\
    (forall item k e, In item items -> item_loads item k e ->
       is_Some (loaded !! k)).
Proof.
  induction items as [|[note_str fname] items IH];
    intros loaded0 missing0 loaded missing Hrun.
  - injection Hrun as <- <-. split; [auto|]. split; [auto|].
    intros item k e [].
  - cbn [load_images_from] in Hrun.
    destruct (isfile (path_join image_folder fname)) eqn:Hfile; cbn [negb] in Hrun.
    + destruct (image_load (path_join image_folder fname)) as [surf|] eqn:Hload.
      * destruct (int_of_str note_str) as [note|err] eqn:Hint;
          cbn [bind] in Hrun; [|discriminate].
        destruct (IH _ _ _ _ Hrun) as (Hfrom & Hkeep & Hhit).
        split; [|split].
        -- intros k e Hk. destruct (Hfrom k e Hk) as [H0|(item & Hin & Hl)].
           ++ destruct (decide (note = k)) as [->|Hne].
              ** rewrite lookup_insert_eq in H0. injection H0 as <-.
                 right. exists (note_str, fname). split; [left; reflexivity|].
                 unfold item_loads. simpl. auto.
              ** rewrite lookup_insert_ne in H0 by exact Hne. left. exact H0.
           ++ right. exists item. split; [right; exact Hin | exact Hl].
        -- intros k Hk. apply Hkeep.
           destruct (decide (note = k)) as [->|Hne].
           ++ rewrite lookup_insert_eq. eauto.
           ++ rewrite lookup_insert_ne by exact Hne. exact Hk.
        -- intros item k e [<-|Hin] Hl.
           ++ destruct Hl as (Hi & _). simpl in Hi.
              rewrite Hint in Hi. injection Hi as <-.
              apply Hkeep. rewrite lookup_insert_eq. eauto.
           ++ apply (Hhit item k e Hin Hl).
      * destruct (IH _ _ _ _ Hrun) as (Hfrom & Hkeep & Hhit).
        split; [|split; [exact Hkeep|]].
        -- intros k e Hk. destruct (Hfrom k e Hk) as [H0|(item & Hin & Hl)];
             [left; exact H0|].
           right. exists item. split; [right; exact Hin | exact Hl].
        -- intros item k e [<-|Hin] Hl; [|apply (Hhit item k e Hin Hl)].
           destruct Hl as (_ & _ & Hl & _). simpl in Hl. congruence.
    + destruct (IH _ _ _ _ Hrun) as (Hfrom & Hkeep & Hhit).
      split; [|split; [exact Hkeep|]].
      * intros k e Hk. destruct (Hfrom k e Hk) as [H0|(item & Hin & Hl)];
          [left; exact H0|].
        right. exists item. split; [right; exact Hin | exact Hl].
      * intros item k e [<-|Hin] Hl; [|apply (Hhit item k e Hin Hl)].
        destruct Hl as (_ & Hl & _). simpl in Hl. congruence.
Qed.

(** The loop ends without an error exactly when the key of every item whose
    image loads is accepted by [int]. *)
Lemma load_images_from_ok items :
  forall loaded0 missing0,
    (exists r, loop items loaded0 missing0 = Ok r) <->
    (forall item, In item items ->
       isfile (path_join image_folder (snd item)) = true ->
       is_Some (image_load (path_join image_folder (snd item))) ->
       exists k, int_of_str (fst item) = Ok k).
Proof.
  induction items as [|[note_str fname] items IH]; intros loaded0 missing0.
  - split; [intros _ item [] | intros _; eexists; reflexivity].
  - cbn [load_images_from].
    destruct (isfile (path_join image_folder fname)) eqn:Hfile; cbn [negb].
    + destruct (image_load (path_join image_folder fname)) as [surf|] eqn:Hload.
      * destruct (int_of_str note_str) as [note|err] eqn:Hint; cbn [bind].
        -- rewrite IH. split.
           ++ intros H item [<-|Hin]; [simpl; eauto | apply H, Hin].
           ++ intros H item Hin. apply H. right. exact Hin.
        -- split; [intros [r [=]]|].
           intros H. destruct (H (note_str, fname) (or_introl eq_refl))
             as [k Hk]; simpl; [exact Hfile | rewrite Hload; eauto |].
           simpl in Hk. congruence.
      * rewrite IH. split.
        -- intros H item [<-|Hin]; [|apply H, Hin].
           simpl. rewrite Hload. intros _ [? [=]].
        -- intros H item Hin. apply H. right. exact Hin.
    + rewrite IH. split.
      * intros H item [<-|Hin]; [|apply H, Hin].
        simpl. rewrite Hfile. discriminate.
      * intros H item Hin. apply H. right. exact Hin.
Qed.

End LoadImagesFacts.

(** X21. When [load_images] returns, every entry that it holds comes from an
    item of the note map whose key [int] accepts, whose path is a regular
    file and whose image loads, and it holds that image and that path;
    conversely every such item has its key among the loaded notes. *)
Theorem load_images_entries {Surface : Type}
    (path_join : String.string -> String.string -> String.string)
    (isfile : String.string -> bool)
    (image_load : String.string -> option Surface)
    (int_of_str : String.string -> result Z)
    (image_folder : String.string)
    (note_map : list (String.string * String.string))
    (loaded : gmap Z (@image_entry Surface)) :
  load_images path_join isfile image_load int_of_str image_folder note_map
  = Ok loaded ->
  (forall k e, loaded !! k = Some e ->
     exists item,
       In item note_map /\
       item_loads path_join isfile image_load int_of_str image_folder item k e) /\
  (forall item k e,
     In item note_map ->
     item_loads path_join isfile image_load int_of_str image_folder item k e ->
     is_Some (loaded !! k)).
Proof.
  unfold load_images. intros Hrun.
  destruct (load_images_from _ _ _ _ _ _ _ _) as [[l m]|err] eqn:Hloop;
    cbn [bind] in Hrun; [|discriminate].
  injection Hrun as <-. cbn [fst].
  destruct (load_images_from_entries _ _ _ _ _ _ _ _ _ _ Hloop)
    as (Hfrom & _ & Hhit).
  split; [|exact Hhit].
  intros k e Hk. destruct (Hfrom k e Hk) as [H0|H]; [|exact H].
  rewrite lookup_empty in H0. discriminate.
Qed.

(** X22. [load_images] returns, rather than raising, exactly when [int]
    accepts the key of every item whose image loads: an item whose image is
    missing or unreadable never makes it raise, whatever its key. *)
Theorem load_images_returns {Surface : Type}
    (path_join : String.string -> String.string -> String.string)
    (isfile : String.string -> bool)
    (image_load : String.string -> option Surface)
    (int_of_str : String.string -> result Z)
    (image_folder : String.string)
    (note_map : list (String.string * String.string)) :
  (exists loaded,
     load_images path_join isfile image_load int_of_str image_folder note_map
     = Ok loaded) <->
  (forall item, In item note_map ->
     isfile (path_join image_folder (snd item)) = true ->
     is_Some (image_load (path_join image_folder (snd item))) ->
     exists k, int_of_str (fst item) = Ok k).
Proof.
  rewrite <- (load_images_from_ok path_join isfile image_load int_of_str
                image_folder note_map ∅ []).
  unfold load_images. split.
  - intros [loaded H].
    destruct (load_images_from _ _ _ _ _ _ _ _) as [r|err]; [eauto|discriminate].
  - intros [r ->]. cbn [bind]. eauto.
Qed.

(** X23. A note for which no item of the note map has an image that loads
    is never displayed: whatever messages are handled from the empty set
    on, it is not among the active notes. *)
Theorem unloadable_note_never_active {Surface Time : Type}
    (path_join : String.string -> String.string -> String.string)
    (isfile : String.string -> bool)
    (image_load : String.string -> option Surface)
    (int_of_str : String.string -> result Z)
    (image_folder : String.string)
    (note_map : list (String.string * String.string))
    (images : gmap Z (@image_entry Surface))
    (pending : list (message * Time)) (note : Z) :
  load_images path_join isfile image_load int_of_str image_folder note_map
  = Ok images ->
  (forall item, In item note_map -> int_of_str (fst item) = Ok note ->
     isfile (path_join image_folder (snd item)) = false \/
     image_load (path_join image_folder (snd item)) = None) ->
  handle_pending images ∅ pending !! note = None.
Proof.
  intros Hload Hnone.
  assert (Hi : images !! note = None).
  { destruct (images !! note) as [e|] eqn:He; [|reflexivity]. exfalso.
    unfold load_images in Hload.
    destruct (load_images_from _ _ _ _ _ _ _ _) as [[l m]|err] eqn:Hloop;
      cbn [bind] in Hload; [|discriminate].
    injection Hload as <-. cbn [fst] in He.
    destruct (load_images_from_entries _ _ _ _ _ _ _ _ _ _ Hloop)
      as (Hfrom & _ & _).
    destruct (Hfrom note e He) as [H0|(item & Hin & Hk & Hfile & Hl & _)].
    - rewrite lookup_empty in H0. discriminate.
    - destruct (Hnone item Hin Hk) as [H|H]; congruence. }
  destruct (handle_pending images ∅ pending !! note) as [d|] eqn:Hd;
    [|reflexivity].
  exfalso.
  assert (Hinv : forall k (e : @display_entry Surface Time),
             handle_pending images ∅ pending !! k = Some e ->
             exists img, images !! k = Some img /\ surf e = img_surf img).
  { apply handle_pending_shows_images. intros k e He.
    rewrite lookup_empty in He. discriminate. }
  destruct (Hinv note d Hd) as (img & Himg & _). congruence.
Qed.

Lemma load_images_entries_witness :
  let path_join := fun a b : String.string => (a ++ "/" ++ b)%string in
  let isfile := fun p : String.string => String.eqb p "images/c4.png" in
  let image_load := fun p : String.string => Some 1%nat in
  let int_of_str := fun s : String.string =>
    if String.eqb s "60" then Ok 60
    else if String.eqb s "61" then Ok 61 else Raise ValueError in
  let note_map := [("60", "c4.png"); ("61", "d4.png"); ("x", "e4.png")]%string in
  let loaded : gmap Z (@image_entry nat) :=
    <[60 := {| img_surf := 1%nat; img_path := "images/c4.png" |}]> ∅ in
  load_images path_join isfile image_load int_of_str "images" note_map
  = Ok loaded /\
  (forall k e, loaded !! k = Some e ->
     exists item,
       In item note_map /\
       item_loads path_join isfile image_load int_of_str "images" item k e) /\
  (forall item k e,
     In item note_map ->
     item_loads path_join isfile image_load int_of_str "images" item k e ->
     is_Some (loaded !! k)).
Proof.
  cbv zeta.
  assert (H : load_images (fun a b : String.string => (a ++ "/" ++ b)%string)
                (fun p : String.string => String.eqb p "images/c4.png")
                (fun p : String.string => Some 1%nat)
                (fun s : String.string =>
                   if String.eqb s "60" then Ok 60
                   else if String.eqb s "61" then Ok 61 else Raise ValueError)
                "images" [("60", "c4.png"); ("61", "d4.png"); ("x", "e4.png")]%string
              = Ok (<[60 := {| img_surf := 1%nat; img_path := "images/c4.png" |}]> ∅))
    by (vm_compute; reflexivity).
  split; [exact H | apply (load_images_entries _ _ _ _ _ _ _ H)].
Defined.

Lemma unloadable_note_never_active_witness :
  let path_join := fun a b : String.string => (a ++ "/" ++ b)%string in
  let isfile := fun p : String.string => String.eqb p "images/c4.png" in
  let image_load := fun p : String.string => Some 1%nat in
  let int_of_str := fun s : String.string =>
    if String.eqb s "60" then Ok 60
    else if String.eqb s "61" then Ok 61 else Raise ValueError in
  let note_map := [("60", "c4.png"); ("61", "d4.png"); ("x", "e4.png")]%string in
  let images : gmap Z (@image_entry nat) :=
    <[60 := {| img_surf := 1%nat; img_path := "images/c4.png" |}]> ∅ in
  let pending := [(note_on 61 100, 1%nat); (note_on 60 100, 2%nat)] in
  load_images path_join isfile image_load int_of_str "images" note_map
  = Ok images /\
  (forall item, In item note_map -> int_of_str (fst item) = Ok 61 ->
     isfile (path_join "images" (snd item)) = false \/
     image_load (path_join "images" (snd item)) = None) /\
  handle_pending images ∅ pending !! 61 = None.
Proof.
  cbv zeta.
  assert (H : load_images (fun a b : String.string => (a ++ "/" ++ b)%string)
                (fun p : String.string => String.eqb p "images/c4.png")
                (fun p : String.string => Some 1%nat)
                (fun s : String.string =>
                   if String.eqb s "60" then Ok 60
                   else if String.eqb s "61" then Ok 61 else Raise ValueError)
                "images" [("60", "c4.png"); ("61", "d4.png"); ("x", "e4.png")]%string
              = Ok (<[60 := {| img_surf := 1%nat; img_path := "images/c4.png" |}]> ∅))
    by (vm_compute; reflexivity).
  assert (Hno : forall item : String.string * String.string,
             In item [("60", "c4.png"); ("61", "d4.png"); ("x", "e4.png")]%string ->
             (if String.eqb (fst item) "60" then Ok 60
              else if String.eqb (fst item) "61" then Ok 61 else Raise ValueError)
             = Ok 61 ->
             String.eqb ("images" ++ "/" ++ snd item) "images/c4.png" = false \/
             (Some 1%nat : option nat) = None).
  { intros item [<-|[<-|[<-|[]]]]; simpl; intros Hk;
      try discriminate Hk; left; reflexivity. }
  split; [exact H|]. split; [exact Hno|].
  apply (unloadable_note_never_active _ _ _ _ _ _ _
           [(note_on 61 100, 1%nat); (note_on 60 100, 2%nat)] 61 H Hno).
Defined.
